(** * External root filesystem hook of the runc v2 shim

    A shallow embedding of [runtime/v2/runc/external_rootfs.go] and the
    properties of its mount resolution.

    Go strings are byte sequences, so they are [string]s here (one [ascii]
    per byte), and so is a [[]byte].  Go's [int] is 64 bits wide; every
    integer of this file is a length or a small constant, far from the
    wrap-around, and is a [nat], an [N] or a [Z].  A Go result pair
    [(value, error)] keeps its shape where the value is a slice ([nil] is
    the empty list) and is a sum where the value is a pointer. *)

From Stdlib Require Import String Ascii List Bool ZArith NArith Lia.
From Stdlib Require Import Permutation Sorted.
Import ListNotations.

Local Open Scope list_scope.
Local Open Scope string_scope.

(** ** Package [strings] of the Go library: the functions the file calls *)

Module strings.

(** [return len(s) >= len(prefix) && s[:len(prefix)] == prefix] *)
Definition HasPrefix (s prefix : string) : bool :=
  (String.length prefix <=? String.length s)%nat
  && (substring 0 (String.length prefix) s =? prefix).

(** [if HasPrefix(s, prefix) { return s[len(prefix):] }; return s] *)
Definition TrimPrefix (s prefix : string) : string :=
  if HasPrefix s prefix
  then substring (String.length prefix)
         (String.length s - String.length prefix) s
  else s.

(** The separators of this file are the one-byte strings [","] and ["="]:
    a separator is an [ascii].  [cut sep s] is [s[:m]] and [s[m+1:]] for
    [m := Index(s, sep)], and [None] when [m < 0]. *)
Fixpoint cut (sep : ascii) (s : string) : option (string * string) :=
  match s with
  | EmptyString => None
  | String c s' =>
      if Ascii.eqb c sep then Some (EmptyString, s')
      else match cut sep s' with
           | Some (a, b) => Some (String c a, b)
           | None => None
           end
  end.

(** [Count(s, sep)] for a one-byte separator. *)
Fixpoint Count (s : string) (sep : ascii) : nat :=
  match s with
  | EmptyString => 0
  | String c s' => (if Ascii.eqb c sep then 1 else 0) + Count s' sep
  end.

(** The loop of [genSplit]: [for i < n { m := Index(s, sep); if m < 0
    { break }; a[i] = s[:m]; s = s[m+len(sep):]; i++ }; a[i] = s]. *)
Fixpoint splitLoop (sep : ascii) (n : nat) (s : string) : list string :=
  match n with
  | O => [s]
  | S n' =>
      match cut sep s with
      | None => [s]
      | Some (a, rest) => a :: splitLoop sep n' rest
      end
  end.

(** [genSplit(s, sep, 0, n)]: nothing for [n == 0], every piece for
    [n < 0], at most [n] pieces otherwise, the last one unsplit. *)
Definition genSplit (s : string) (sep : ascii) (n : Z) : list string :=
  if (n =? 0)%Z then []
  else
    let n := if (n <? 0)%Z then (Z.of_nat (Count s sep) + 1)%Z else n in
    let n := if (n >? Z.of_nat (String.length s) + 1)%Z
             then (Z.of_nat (String.length s) + 1)%Z else n in
    splitLoop sep (Z.to_nat (n - 1)) s.

Definition SplitN (s : string) (sep : ascii) (n : Z) : list string :=
  genSplit s sep n.

Definition Split (s : string) (sep : ascii) : list string :=
  genSplit s sep (-1).

End strings.

Import strings.

(** [fmt.Sprintf(prefix + "%s", v)] for a string [v]. *)
Definition Sprintf_s (prefix v : string) : string := prefix ++ v.

(** ** Package [mount]: the mount description the shim passes around *)

Module mount.

(** Of [mount.Mount] the file reads and writes the fields [Type],
    [Source] and [Options]. *)
Record Mount : Type := {
  Type' : string;
  Source : string;
  Options : list string
}.

End mount.

Import mount.

(** ** Errors, files and the calls that leave the process *)

(** A Go [error]: made by a library call, or by [fmt.Errorf] here. *)
Inductive error : Type :=
| LibError (msg : string)
| Errorf (msg : string).

(** [spec.Process.Env] is all the file reads of the OCI specification
    that [oci.ReadSpec] returns.  A specification without a process
    section is outside the model. *)
Record Process : Type := { Env : list string }.
Record Spec : Type := { Process_ : Process }.

Definition bytes : Type := string.
Definition FileMode : Type := N.

(** Octal [0600] and [0777]. *)
Definition perm_0600 : FileMode := (6 * 64)%N.
Definition perm_0777 : FileMode := (7 * 64 + 7 * 8 + 7)%N.

(** The calls on the file system, each with the type of what it returns:
    [oci.ReadSpec], [os.ReadFile], [os.MkdirAll] and [os.WriteFile].  The
    log line of [HookMounts] is not part of the model. *)
Inductive fsE : Type -> Type :=
| ReadSpec (configFile : string) : fsE (error + Spec)
| ReadFile (name : string) : fsE (error + bytes)
| MkdirAll (path : string) (perm : FileMode) : fsE (option error)
| WriteFile (name : string) (data : bytes) (perm : FileMode)
  : fsE (option error).

(** A program is a finite tree of such calls: the code has no loop around
    a call. *)
Inductive IO (A : Type) : Type :=
| Ret (a : A)
| Vis (X : Type) (e : fsE X) (k : X -> IO A).

Arguments Ret {A} a.
Arguments Vis {A X} e k.

Fixpoint bind {A B : Type} (m : IO A) (f : A -> IO B) : IO B :=
  match m with
  | Ret a => f a
  | Vis e k => Vis e (fun x => bind (k x) f)
  end.

Definition trigger {X : Type} (e : fsE X) : IO X := Vis e Ret.

Declare Scope io_scope.
Delimit Scope io_scope with io.
Notation "x <- m ;; k" := (bind m (fun x => k))
  (at level 100, m at next level, right associativity) : io_scope.
Local Open Scope io_scope.

(** What the world answers: a handler maps a call and a world to the
    call's result and the next world. *)
Definition handler (W : Type) : Type := forall X : Type, fsE X -> W -> X * W.

Fixpoint run {W A : Type} (h : handler W) (p : IO A) (w : W) : A * W :=
  match p with
  | Ret a => (a, w)
  | Vis e k => let '(x, w') := h _ e w in run h (k x) w'
  end.

(** The calls a run makes, in order, without their results. *)
Inductive call : Type :=
| CallReadSpec (configFile : string)
| CallReadFile (name : string)
| CallMkdirAll (path : string) (perm : FileMode)
| CallWriteFile (name : string) (data : bytes) (perm : FileMode).

Definition call_of {X : Type} (e : fsE X) : call :=
  match e with
  | ReadSpec f => CallReadSpec f
  | ReadFile n => CallReadFile n
  | MkdirAll p m => CallMkdirAll p m
  | WriteFile n d m => CallWriteFile n d m
  end.

Fixpoint calls {W A : Type} (h : handler W) (p : IO A) (w : W) : list call :=
  match p with
  | Ret _ => []
  | Vis e k => let '(x, w') := h _ e w in call_of e :: calls h (k x) w'
  end.

(** ** Package [unicode/utf8]: which bytes start a valid encoding *)

Module utf8.

Definition between (lo hi : N) (c : ascii) : bool :=
  (lo <=? N_of_ascii c)%N && (N_of_ascii c <=? hi)%N.

Definition continuation : ascii -> bool := between 0x80 0xBF.

(** The table [first] with [acceptRanges]: for a first byte, the size of
    its encoding and the range its second byte must lie in; [None] for a
    byte that starts no encoding. *)
Definition first (c : ascii) : option (nat * N * N) :=
  let n := N_of_ascii c in
  if (n <? 0x80)%N then Some (1%nat, 0, 0)%N
  else if (n <? 0xC2)%N then None
  else if (n <=? 0xDF)%N then Some (2%nat, 0x80, 0xBF)%N
  else if (n =? 0xE0)%N then Some (3%nat, 0xA0, 0xBF)%N
  else if (n =? 0xED)%N then Some (3%nat, 0x80, 0x9F)%N
  else if (n <=? 0xEF)%N then Some (3%nat, 0x80, 0xBF)%N
  else if (n =? 0xF0)%N then Some (4%nat, 0x90, 0xBF)%N
  else if (n <=? 0xF3)%N then Some (4%nat, 0x80, 0xBF)%N
  else if (n =? 0xF4)%N then Some (4%nat, 0x80, 0x8F)%N
  else None.

(** The size [DecodeRuneInString] returns at the head of [s], and [0]
    where it returns [(RuneError, 1)] for an invalid or short encoding. *)
Definition validSize (s : string) : nat :=
  match s with
  | EmptyString => 0
  | String c0 r =>
      match first c0 with
      | None => 0
      | Some (1%nat, _, _) => 1
      | Some (size, lo, hi) =>
          match r with
          | EmptyString => 0
          | String c1 r1 =>
              if between lo hi c1 then
                match size, r1 with
                | 2%nat, _ => 2
                | 3%nat, String c2 _ => if continuation c2 then 3 else 0
                | 4%nat, String c2 (String c3 _) =>
                    if continuation c2 && continuation c3 then 4 else 0
                | _, _ => 0
                end
              else 0
          end
      end
  end.

End utf8.

(** ** Package [encoding/json], as far as the configuration goes through it

    [ReadExternalRootFSConfigFromENV] marshals a [map[string]string] and
    unmarshals the text into a struct of strings.  The text in between is
    modelled by the members of the object it denotes, in the order they
    are written. *)

Module json.

Definition object : Type := list (string * string).

(** U+FFFD in UTF-8. *)
Definition replacement : string :=
  String (ascii_of_N 0xEF) (String (ascii_of_N 0xBF)
    (String (ascii_of_N 0xBD) EmptyString)).

(** A string as the encoder writes it and the decoder reads it back: a
    byte that starts no valid UTF-8 encoding is written as U+FFFD, and
    every escape of the encoder is undone by the decoder.  [skip] counts
    the bytes left of the encoding being copied. *)
Fixpoint coerce (skip : nat) (s : string) : string :=
  match s with
  | EmptyString => EmptyString
  | String c r =>
      match skip with
      | S k => String c (coerce k r)
      | O =>
          match utf8.validSize s with
          | O => replacement ++ coerce 0 r
          | S k => String c (coerce k r)
          end
      end
  end.

Definition transported (s : string) : string := coerce 0 s.

(** [foldName]: ASCII letters in upper case, and the two runes outside
    ASCII whose case folding is an ASCII letter, U+017F (long s, bytes
    C5 BF) and U+212A (Kelvin sign, bytes E2 84 AA).  Every other rune
    outside ASCII folds to a rune outside ASCII; against the tags of this
    file, all ASCII, it only matters that it stays outside, and it is
    left as it is. *)
Fixpoint foldName (s : string) : string :=
  match s with
  | EmptyString => EmptyString
  | String c r =>
      let n := N_of_ascii c in
      if (97 <=? n)%N && (n <=? 122)%N
      then String (ascii_of_N (n - 32)) (foldName r)
      else
        match r with
        | EmptyString => String c (foldName r)
        | String c1 r1 =>
            if (n =? 0xC5)%N && (N_of_ascii c1 =? 0xBF)%N
            then String "S" (foldName r1)
            else
              match r1 with
              | EmptyString => String c (foldName r)
              | String c2 r2 =>
                  if (n =? 0xE2)%N && (N_of_ascii c1 =? 0x84)%N
                     && (N_of_ascii c2 =? 0xAA)%N
                  then String "K" (foldName r2)
                  else String c (foldName r)
              end
        end
  end.

(** A [map[string]string] is kept in the order of its keys, byte by byte,
    which is the order [Marshal] writes its members in. *)
Definition gomap : Type := list (string * string).

(** [m[k] = v] *)
Fixpoint map_set (k v : string) (m : gomap) : gomap :=
  match m with
  | [] => [(k, v)]
  | (k', v') :: m' =>
      match String.compare k k' with
      | Lt => (k, v) :: m
      | Eq => (k, v) :: m'
      | Gt => (k', v') :: map_set k v m'
      end
  end.

(** [Marshal] of a map of strings: it cannot fail. *)
Definition Marshal_map (m : gomap) : object :=
  map (fun kv => (transported (fst kv), transported (snd kv))) m.

Section Unmarshal.

(** A struct of string fields, each with its tag and its assignment. *)
Variable T : Type.
Variable fields : list (string * (string -> T -> T)).

Definition byExactName (key : string) : option (string * (string -> T -> T)) :=
  find (fun f => fst f =? key) fields.

Definition byFoldedName (key : string) : option (string * (string -> T -> T)) :=
  find (fun f => foldName (fst f) =? foldName key) fields.

(** A key is matched by its exact name, and by its folded name after
    that. *)
Definition fieldOf (key : string) : option (string * (string -> T -> T)) :=
  match byExactName key with
  | Some f => Some f
  | None => byFoldedName key
  end.

(** [Unmarshal] of an object into such a struct: the members are
    assigned in order, a member that matches no field is skipped, and
    nothing fails. *)
Definition Unmarshal_struct (o : object) (v : T) : T :=
  fold_left
    (fun v kv =>
       match fieldOf (fst kv) with
       | Some f => snd f (snd kv) v
       | None => v
       end)
    o v.

End Unmarshal.

End json.

(** ** The file itself *)

Definition MountConfigName : string := "mounts.json".

Definition ExternalRootFSDriver : Type := string.

Definition ExternalRootFSPrefix : string := "EXTERNAL_ROOTFS_".
Definition ExternalRootFSDriverOverlay : ExternalRootFSDriver := "overlay".
Definition ExternalRootFSDriverDevice : ExternalRootFSDriver := "device".

Module ExtDevice.

Record t : Type := {
  Device : string;          (* json:"device" *)
  FilesystemType : string   (* json:"fs_type" *)
}.

End ExtDevice.

(** The library functions whose result the file only passes on:
    [filepath.Join], [json.Marshal] of a mount list and [json.Unmarshal]
    into an [ExtDevice]. *)
Class Externals : Type := {
  filepath_Join : string -> string -> string;
  json_Marshal_mounts : list Mount -> error + bytes;
  json_Unmarshal_ExtDevice : bytes -> error + ExtDevice.t
}.

(** [WriteMounts] writes the runtime information into the path. *)
Definition WriteMounts `{Externals} (path : string) (mounts : list Mount)
  : IO (option error) :=
  if (List.length mounts =? 0)%nat then Ret None
  else
    match json_Marshal_mounts mounts with
    | inl err => Ret (Some err)
    | inr b => trigger (WriteFile (filepath_Join path "mounts.json") b perm_0600)
    end.

(** The loop of [ReadExternalRootFSConfigFromENV] over [spec.Process.Env],
    one round, with the [SplitN] count as the code has it. *)
Definition configMap_step (configMap : json.gomap) (env : string)
  : json.gomap :=
  if negb (HasPrefix env ExternalRootFSPrefix) then configMap
  else
    let t := SplitN env "=" (-1) in
    if (List.length t <? 2)%nat then configMap
    else json.map_set (nth 0 t "") (nth 1 t "") configMap.

Definition configMap_of (envs : list string) : json.gomap :=
  fold_left configMap_step envs [].

(** The key of an environment entry: what stands before its first [=]. *)
Definition entry_key (env : string) : string :=
  match cut "=" env with
  | Some (k, _) => k
  | None => env
  end.

(** The zero value of [mount.Mount], for [mounts[0]] behind its guard. *)
Definition zero_Mount : Mount := {| Type' := ""; Source := ""; Options := [] |}.

(** One round of the loop of [ParseOverlayOption] on its three
    variables. *)
Definition ParseOverlayOption_step
    (acc : string * string * string) (option : string)
  : string * string * string :=
  let '(upperdir, lowerdir, workdir) := acc in
  if HasPrefix option "upperdir" then
    (TrimPrefix option "upperdir=", lowerdir, workdir)
  else if HasPrefix option "lowerdir" then
    (upperdir, TrimPrefix option "lowerdir=", workdir)
  else if HasPrefix option "workdir" then
    (upperdir, lowerdir, TrimPrefix option "workdir=")
  else acc.

Definition ParseOverlayOption (m : Mount) : string * string * string :=
  fold_left ParseOverlayOption_step (Options m) ("", "", "").

(** The body of the first [if] of [HookMounts], the same in both listings
    of the file, on the two fields of the configuration it reads. *)
Definition overlayOverride (OverlayLower OverlayUpper : string) (m : Mount)
  : IO (list Mount * option error) :=
  let '(upperdir, lowdir, workdir) := ParseOverlayOption m in
  let lowdir := if negb (OverlayLower =? "") then OverlayLower else lowdir in
  let upperdir := if negb (OverlayUpper =? "") then OverlayUpper else upperdir in
  err <- (if negb (OverlayUpper =? "")
          then trigger (MkdirAll upperdir perm_0777)
          else Ret None) ;;
  match err with
  | Some e => Ret ([], Some e)
  | None =>
      let newMount :=
        {| Type' := "overlay";
           Source := "overlay";
           Options := [ Sprintf_s "upperdir=" upperdir;
                        Sprintf_s "lowerdir=" lowdir;
                        Sprintf_s "workdir=" workdir;
                        "index=off" ] |} in
      Ret ([newMount], None)
  end.

(** [len(mounts) == 1 && mounts[0].Type == "overlay"] *)
Definition single_overlay (mounts : list Mount) : bool :=
  (List.length mounts =? 1)%nat
  && (Type' (nth 0 mounts zero_Mount) =? "overlay").

(** *** The first listing: device parameters in layers *)

Module Layered.

Record ExternalRootFSConfig : Type := {
  Driver : ExternalRootFSDriver;
  OverlayLower : string;
  OverlayUpper : string;
  Device : string;
  DeviceFSType : string;
  DeviceConfig : string;
  DeviceMountOpts : string
}.

Definition zero : ExternalRootFSConfig :=
  {| Driver := ""; OverlayLower := ""; OverlayUpper := ""; Device := "";
     DeviceFSType := ""; DeviceConfig := ""; DeviceMountOpts := "" |}.

Definition set_Driver (v : string) (c : ExternalRootFSConfig) :=
  {| Driver := v; OverlayLower := OverlayLower c;
     OverlayUpper := OverlayUpper c; Device := Device c;
     DeviceFSType := DeviceFSType c; DeviceConfig := DeviceConfig c;
     DeviceMountOpts := DeviceMountOpts c |}.
Definition set_OverlayLower (v : string) (c : ExternalRootFSConfig) :=
  {| Driver := Driver c; OverlayLower := v;
     OverlayUpper := OverlayUpper c; Device := Device c;
     DeviceFSType := DeviceFSType c; DeviceConfig := DeviceConfig c;
     DeviceMountOpts := DeviceMountOpts c |}.
Definition set_OverlayUpper (v : string) (c : ExternalRootFSConfig) :=
  {| Driver := Driver c; OverlayLower := OverlayLower c;
     OverlayUpper := v; Device := Device c;
     DeviceFSType := DeviceFSType c; DeviceConfig := DeviceConfig c;
     DeviceMountOpts := DeviceMountOpts c |}.
Definition set_Device (v : string) (c : ExternalRootFSConfig) :=
  {| Driver := Driver c; OverlayLower := OverlayLower c;
     OverlayUpper := OverlayUpper c; Device := v;
     DeviceFSType := DeviceFSType c; DeviceConfig := DeviceConfig c;
     DeviceMountOpts := DeviceMountOpts c |}.
Definition set_DeviceFSType (v : string) (c : ExternalRootFSConfig) :=
  {| Driver := Driver c; OverlayLower := OverlayLower c;
     OverlayUpper := OverlayUpper c; Device := Device c;
     DeviceFSType := v; DeviceConfig := DeviceConfig c;
     DeviceMountOpts := DeviceMountOpts c |}.
Definition set_DeviceConfig (v : string) (c : ExternalRootFSConfig) :=
  {| Driver := Driver c; OverlayLower := OverlayLower c;
     OverlayUpper := OverlayUpper c; Device := Device c;
     DeviceFSType := DeviceFSType c; DeviceConfig := v;
     DeviceMountOpts := DeviceMountOpts c |}.
Definition set_DeviceMountOpts (v : string) (c : ExternalRootFSConfig) :=
  {| Driver := Driver c; OverlayLower := OverlayLower c;
     OverlayUpper := OverlayUpper c; Device := Device c;
     DeviceFSType := DeviceFSType c; DeviceConfig := DeviceConfig c;
     DeviceMountOpts := v |}.

(** The [json] tags of the struct, in the order of its fields. *)
Definition fields
  : list (string * (string -> ExternalRootFSConfig -> ExternalRootFSConfig)) :=
  [ ("EXTERNAL_ROOTFS_DRIVER", set_Driver);
    ("EXTERNAL_ROOTFS_OVERLAY_LOWER_PATH", set_OverlayLower);
    ("EXTERNAL_ROOTFS_OVERLAY_UPPER_PATH", set_OverlayUpper);
    ("EXTERNAL_ROOTFS_DEVICE_NAME", set_Device);
    ("EXTERNAL_ROOTFS_DEVICE_FSTYPE", set_DeviceFSType);
    ("EXTERNAL_ROOTFS_DEVICE_CONFIG", set_DeviceConfig);
    ("EXTERNAL_ROOTFS_DEVICE_MOUNT_OPTS", set_DeviceMountOpts) ].

(** [json.Marshal(configMap)] and [json.Unmarshal] into a fresh struct. *)
Definition decodeConfig (configMap : json.gomap) : ExternalRootFSConfig :=
  json.Unmarshal_struct _ fields (json.Marshal_map configMap) zero.

(** The configuration an environment gives, once the specification is
    read. *)
Definition config_of_env (envs : list string) : ExternalRootFSConfig :=
  decodeConfig (configMap_of envs).

Definition ReadExternalRootFSConfigFromENV (configFile : string)
  : IO (error + ExternalRootFSConfig) :=
  r <- trigger (ReadSpec configFile) ;;
  match r with
  | inl err => Ret (inl err)
  | inr spec => Ret (inr (config_of_env (Env (Process_ spec))))
  end.

Definition externalDevice `{Externals} (c : ExternalRootFSConfig)
  : IO (list Mount * option error) :=
  let fsType := "xfs" in
  let device := "" in
  let mountOpt := ["rw"] in
  r <- (if negb (DeviceConfig c =? "") then
          b <- trigger (ReadFile (DeviceConfig c)) ;;
          match b with
          | inl err => Ret (inl err)
          | inr b =>
              match json_Unmarshal_ExtDevice b with
              | inl err => Ret (inl err)
              | inr ed =>
                  let fsType :=
                    if negb (ExtDevice.FilesystemType ed =? "")
                    then ExtDevice.FilesystemType ed else fsType in
                  Ret (inr (fsType, ExtDevice.Device ed))
              end
          end
        else Ret (inr (fsType, device))) ;;
  match r with
  | inl err => Ret ([], Some err)
  | inr (fsType, device) =>
      let fsType :=
        if negb (DeviceFSType c =? "") then DeviceFSType c else fsType in
      let device := if negb (Device c =? "") then Device c else device in
      let mountOpt :=
        if negb (DeviceMountOpts c =? "")
        then Split (DeviceMountOpts c) "," else mountOpt in
      if device =? "" then
        Ret ([], Some (Errorf
                         "use external deivce as rootfs, but config is empty"))
      else
        Ret ([ {| Type' := fsType; Source := device; Options := mountOpt |} ],
             None)
  end.

(** [HookMounts] from the point where [extRootfsConfig] is read. *)
Definition HookMounts_cfg `{Externals}
    (mounts : list Mount) (extRootfsConfig : ExternalRootFSConfig)
  : IO (list Mount * option error) :=
  if (Driver extRootfsConfig =? ExternalRootFSDriverOverlay)
     && single_overlay mounts
  then overlayOverride (OverlayLower extRootfsConfig)
         (OverlayUpper extRootfsConfig) (nth 0 mounts zero_Mount)
  else if Driver extRootfsConfig =? ExternalRootFSDriverDevice
  then externalDevice extRootfsConfig
  else Ret (mounts, None).

Definition HookMounts `{Externals} (mounts : list Mount) (configPath : string)
  : IO (list Mount * option error) :=
  r <- ReadExternalRootFSConfigFromENV configPath ;;
  match r with
  | inl err => Ret ([], Some err)
  | inr extRootfsConfig => HookMounts_cfg mounts extRootfsConfig
  end.

End Layered.

(** *** The second listing: the device mount taken from the configuration *)

Module Simple.

Record ExternalRootFSConfig : Type := {
  Driver : ExternalRootFSDriver;
  OverlayLower : string;
  OverlayUpper : string;
  Device : string;
  DeviceFSType : string
}.

Definition zero : ExternalRootFSConfig :=
  {| Driver := ""; OverlayLower := ""; OverlayUpper := ""; Device := "";
     DeviceFSType := "" |}.

Definition set_Driver (v : string) (c : ExternalRootFSConfig) :=
  {| Driver := v; OverlayLower := OverlayLower c;
     OverlayUpper := OverlayUpper c; Device := Device c;
     DeviceFSType := DeviceFSType c |}.
Definition set_OverlayLower (v : string) (c : ExternalRootFSConfig) :=
  {| Driver := Driver c; OverlayLower := v;
     OverlayUpper := OverlayUpper c; Device := Device c;
     DeviceFSType := DeviceFSType c |}.
Definition set_OverlayUpper (v : string) (c : ExternalRootFSConfig) :=
  {| Driver := Driver c; OverlayLower := OverlayLower c;
     OverlayUpper := v; Device := Device c;
     DeviceFSType := DeviceFSType c |}.
Definition set_Device (v : string) (c : ExternalRootFSConfig) :=
  {| Driver := Driver c; OverlayLower := OverlayLower c;
     OverlayUpper := OverlayUpper c; Device := v;
     DeviceFSType := DeviceFSType c |}.
Definition set_DeviceFSType (v : string) (c : ExternalRootFSConfig) :=
  {| Driver := Driver c; OverlayLower := OverlayLower c;
     OverlayUpper := OverlayUpper c; Device := Device c;
     DeviceFSType := v |}.

Definition fields
  : list (string * (string -> ExternalRootFSConfig -> ExternalRootFSConfig)) :=
  [ ("EXTERNAL_ROOTFS_DRIVER", set_Driver);
    ("EXTERNAL_ROOTFS_OVERLAY_LOWER_PATH", set_OverlayLower);
    ("EXTERNAL_ROOTFS_OVERLAY_UPPER_PATH", set_OverlayUpper);
    ("EXTERNAL_ROOTFS_DEVICE_NAME", set_Device);
    ("EXTERNAL_ROOTFS_DEVICE_FSTYPE", set_DeviceFSType) ].

Definition decodeConfig (configMap : json.gomap) : ExternalRootFSConfig :=
  json.Unmarshal_struct _ fields (json.Marshal_map configMap) zero.

Definition config_of_env (envs : list string) : ExternalRootFSConfig :=
  decodeConfig (configMap_of envs).

Definition ReadExternalRootFSConfigFromENV (configFile : string)
  : IO (error + ExternalRootFSConfig) :=
  r <- trigger (ReadSpec configFile) ;;
  match r with
  | inl err => Ret (inl err)
  | inr spec => Ret (inr (config_of_env (Env (Process_ spec))))
  end.

Definition HookMounts_cfg
    (mounts : list Mount) (extRootfsConfig : ExternalRootFSConfig)
  : IO (list Mount * option error) :=
  if (Driver extRootfsConfig =? ExternalRootFSDriverOverlay)
     && single_overlay mounts
  then overlayOverride (OverlayLower extRootfsConfig)
         (OverlayUpper extRootfsConfig) (nth 0 mounts zero_Mount)
  else if (Driver extRootfsConfig =? ExternalRootFSDriverDevice)
          && negb (Device extRootfsConfig =? "")
  then
    let newMount :=
      {| Type' := DeviceFSType extRootfsConfig;
         Source := Device extRootfsConfig;
         Options := ["rw"] |} in
    Ret ([newMount], None)
  else Ret (mounts, None).

Definition HookMounts (mounts : list Mount) (configPath : string)
  : IO (list Mount * option error) :=
  r <- ReadExternalRootFSConfigFromENV configPath ;;
  match r with
  | inl err => Ret ([], Some err)
  | inr extRootfsConfig => HookMounts_cfg mounts extRootfsConfig
  end.

End Simple.

(** ** Definitions the statements use *)

(** The configuration of the first listing, read into the struct of the
    second: the five fields the two structs share. *)
Definition simple_of (c : Layered.ExternalRootFSConfig)
  : Simple.ExternalRootFSConfig :=
  {| Simple.Driver := Layered.Driver c;
     Simple.OverlayLower := Layered.OverlayLower c;
     Simple.OverlayUpper := Layered.OverlayUpper c;
     Simple.Device := Layered.Device c;
     Simple.DeviceFSType := Layered.DeviceFSType c |}.

(** The error of a device driver with no device. *)
Definition MissingDeviceError : error :=
  Errorf "use external deivce as rootfs, but config is empty".

(** An option none of the three cases of [ParseOverlayOption] consumes. *)
Definition unrelated (option : string) : bool :=
  negb (HasPrefix option "upperdir")
  && negb (HasPrefix option "lowerdir")
  && negb (HasPrefix option "workdir").

Definition upper_of (r : string * string * string) : string := fst (fst r).
Definition lower_of (r : string * string * string) : string := snd (fst r).
Definition work_of (r : string * string * string) : string := snd r.

(** The keys of the key-to-field table. *)
Definition table_keys : list string := map fst Layered.fields.

(** A key the decoder assigns to some field of the struct. *)
Definition decoded_key (key : string) : bool :=
  match json.fieldOf _ Layered.fields (json.transported key) with
  | Some _ => true
  | None => false
  end.

(** The members of a map the decoder assigns. *)
Definition decoded_members (m : json.gomap) : json.gomap :=
  filter (fun kv => decoded_key (fst kv)) m.

(** The keys of a map stand in increasing order. *)
Definition key_lt (a b : string * string) : Prop :=
  String.compare (fst a) (fst b) = Lt.

Definition sorted_keys (m : json.gomap) : Prop := StronglySorted key_lt m.

(** The device parameters by precedence, for a descriptor [ed] when the
    configuration names a descriptor file: the inline value if it is not
    empty, the descriptor's otherwise, the default last. *)
Definition first_nonempty (candidates : list string) (default : string)
  : string :=
  match find (fun s => negb (s =? "")) candidates with
  | Some s => s
  | None => default
  end.

Definition resolved_fstype (c : Layered.ExternalRootFSConfig)
    (ed : option ExtDevice.t) : string :=
  first_nonempty
    (Layered.DeviceFSType c
       :: match ed with
          | Some d => [ExtDevice.FilesystemType d]
          | None => []
          end)
    "xfs".

Definition resolved_device (c : Layered.ExternalRootFSConfig)
    (ed : option ExtDevice.t) : string :=
  first_nonempty
    (Layered.Device c
       :: match ed with
          | Some d => [ExtDevice.Device d]
          | None => []
          end)
    "".

Definition resolved_options (c : Layered.ExternalRootFSConfig) : list string :=
  if Layered.DeviceMountOpts c =? "" then ["rw"]
  else Split (Layered.DeviceMountOpts c) ",".

(** ** A file system in memory and stand-ins for the library functions,
    for the examples *)

Module MemFS.

Record World : Type := {
  specs : list (string * Spec);
  files : list (string * bytes);
  dirs : list string
}.

Fixpoint lookup {A : Type} (k : string) (l : list (string * A)) : option A :=
  match l with
  | [] => None
  | (k', a) :: l' => if k =? k' then Some a else lookup k l'
  end.

Definition no_such_file : error := LibError "no such file or directory".

(** Reads fail on a missing file; [MkdirAll] and [WriteFile] succeed, and
    the newest content of a file shadows the older ones. *)
Definition handle : handler World :=
  fun X e =>
    match e in fsE X return World -> X * World with
    | ReadSpec f => fun w =>
        (match lookup f (specs w) with
         | Some s => inr s
         | None => inl no_such_file
         end, w)
    | ReadFile n => fun w =>
        (match lookup n (files w) with
         | Some b => inr b
         | None => inl no_such_file
         end, w)
    | MkdirAll p _ => fun w =>
        (None, {| specs := specs w; files := files w; dirs := p :: dirs w |})
    | WriteFile n d _ => fun w =>
        (None,
         {| specs := specs w; files := (n, d) :: files w; dirs := dirs w |})
    end.

Definition empty : World := {| specs := []; files := []; dirs := [] |}.

End MemFS.

Module Demo.

Definition render (m : Mount) : string :=
  Type' m ++ " " ++ Source m ++ " " ++ String.concat "," (Options m).

(** A descriptor file of the examples holds the device and the
    filesystem type, with one space between them. *)
Definition parse_ExtDevice (b : bytes) : error + ExtDevice.t :=
  match cut " " b with
  | Some (d, f) => inr {| ExtDevice.Device := d; ExtDevice.FilesystemType := f |}
  | None => inl (LibError "unexpected end of input")
  end.

Definition externals : Externals := {|
  filepath_Join := fun dir name => dir ++ "/" ++ name;
  json_Marshal_mounts := fun ms => inr (String.concat ";" (map render ms));
  json_Unmarshal_ExtDevice := parse_ExtDevice
|}.

(** The data of the examples. *)
Definition overlay_mount : Mount :=
  {| Type' := "overlay"; Source := "overlay";
     Options := ["upperdir=/a"; "lowerdir=/b"; "workdir=/c"] |}.

Definition bind_mount : Mount :=
  {| Type' := "bind"; Source := "/srv/data"; Options := ["rbind"; "ro"] |}.

Definition spec_of (envs : list string) : Spec :=
  {| Process_ := {| Env := envs |} |}.

Definition world_of (envs : list string) : MemFS.World :=
  {| MemFS.specs := [("/run/c1/config.json", spec_of envs)];
     MemFS.files := [("/etc/rootfs.json", "/dev/a ");
                     ("/run/c1/mounts.json", "stale")];
     MemFS.dirs := [] |}.

Definition device_cfg (device fstype config opts : string)
  : Layered.ExternalRootFSConfig :=
  {| Layered.Driver := "device"; Layered.OverlayLower := "";
     Layered.OverlayUpper := ""; Layered.Device := device;
     Layered.DeviceFSType := fstype; Layered.DeviceConfig := config;
     Layered.DeviceMountOpts := opts |}.

Definition overlay_cfg (lower upper : string)
  : Layered.ExternalRootFSConfig :=
  {| Layered.Driver := "overlay"; Layered.OverlayLower := lower;
     Layered.OverlayUpper := upper; Layered.Device := "";
     Layered.DeviceFSType := ""; Layered.DeviceConfig := "";
     Layered.DeviceMountOpts := "" |}.

End Demo.

(** ** What the device branch finds in the descriptor file *)

(** [ed] is the descriptor the device branch works with in the world [w]:
    none when the configuration names no file, and what the file decodes
    to when it names one that is read and decoded. *)
Definition descriptor_read `{Externals} {W : Type} (h : handler W) (w : W)
    (c : Layered.ExternalRootFSConfig) (ed : option ExtDevice.t) : Prop :=
  (Layered.DeviceConfig c = "" /\ ed = None)
  \/ (Layered.DeviceConfig c <> ""
      /\ exists (b : bytes) (d : ExtDevice.t),
          fst (h _ (ReadFile (Layered.DeviceConfig c)) w) = inr b
          /\ json_Unmarshal_ExtDevice b = inr d
          /\ ed = Some d).

(** [os.WriteFile] as the library documents it: after a write without
    error the file holds the data written, whatever it held before. *)
Definition WriteFile_truncates {W : Type} (h : handler W) : Prop :=
  forall (name : string) (data : bytes) (perm : FileMode) (w : W),
    fst (h _ (WriteFile name data perm) w) = None ->
    fst (h _ (ReadFile name) (snd (h _ (WriteFile name data perm) w)))
    = inr data.

(** ** Definitions the further statements use *)

(** The mount the overlay branch builds from three directories. *)
Definition built_overlay (upperdir lowdir workdir : string) : Mount :=
  {| Type' := "overlay";
     Source := "overlay";
     Options := [ "upperdir=" ++ upperdir; "lowerdir=" ++ lowdir;
                  "workdir=" ++ workdir; "index=off" ] |}.

(** [v, ok := m[k]] *)
Fixpoint map_get (k : string) (m : json.gomap) : option string :=
  match m with
  | [] => None
  | (k', v') :: m' => if k =? k' then Some v' else map_get k m'
  end.

(** What a round of the loop of [ReadExternalRootFSConfigFromENV] stores
    for an entry, [t[0]] and [t[1]], or nothing when the round skips the
    entry. *)
Definition stored_entry (env : string) : option (string * string) :=
  if HasPrefix env ExternalRootFSPrefix then
    match SplitN env "=" (-1) with
    | k :: v :: _ => Some (k, v)
    | _ => None
    end
  else None.

Definition stored (envs : list string) : list (string * string) :=
  flat_map (fun e => match stored_entry e with
                     | Some kv => [kv]
                     | None => []
                     end) envs.

(** The value of the last member whose key satisfies [p]. *)
Definition last_value (p : string -> bool) (members : list (string * string))
  : option string :=
  option_map snd (find (fun kv => p (fst kv)) (rev members)).

(** The field a tag of the struct stands for. *)
Definition field_table
  : list (string * (Layered.ExternalRootFSConfig -> string)) :=
  [ ("EXTERNAL_ROOTFS_DRIVER", Layered.Driver);
    ("EXTERNAL_ROOTFS_OVERLAY_LOWER_PATH", Layered.OverlayLower);
    ("EXTERNAL_ROOTFS_OVERLAY_UPPER_PATH", Layered.OverlayUpper);
    ("EXTERNAL_ROOTFS_DEVICE_NAME", Layered.Device);
    ("EXTERNAL_ROOTFS_DEVICE_FSTYPE", Layered.DeviceFSType);
    ("EXTERNAL_ROOTFS_DEVICE_CONFIG", Layered.DeviceConfig);
    ("EXTERNAL_ROOTFS_DEVICE_MOUNT_OPTS", Layered.DeviceMountOpts) ].

(** A key the decoder takes for [tag]. *)
Definition folds_to (tag key : string) : bool :=
  tag =? json.foldName (json.transported key).

(** Every byte below 128. *)
Fixpoint ascii_only (s : string) : bool :=
  match s with
  | EmptyString => true
  | String c r => (N_of_ascii c <? 128)%N && ascii_only r
  end.

(** The calls [HookMounts] makes once the configuration is read. *)
Definition expected_calls (mounts : list Mount)
    (cfg : Layered.ExternalRootFSConfig) : list call :=
  if (Layered.Driver cfg =? "overlay") && single_overlay mounts then
    if Layered.OverlayUpper cfg =? "" then []
    else [CallMkdirAll (Layered.OverlayUpper cfg) perm_0777]
  else if Layered.Driver cfg =? "device" then
    if Layered.DeviceConfig cfg =? "" then []
    else [CallReadFile (Layered.DeviceConfig cfg)]
  else [].

(** The value the decoder leaves in the field of [tag]: the value, as it
    goes through the text, of the last member of the map whose key the
    decoder takes for the tag, and the empty string without one. *)
Definition decoded_value (tag : string) (m : json.gomap) : string :=
  match last_value (folds_to tag) m with
  | Some v => json.transported v
  | None => ""
  end.

(** The file system of the examples mounted read-only: reads as before,
    and [os.MkdirAll] and [os.WriteFile] fail. *)
Definition read_only_file_system : error := LibError "read-only file system".

Definition handle_readonly : handler MemFS.World :=
  fun X e =>
    match e in fsE X return MemFS.World -> X * MemFS.World with
    | MkdirAll _ _ => fun w => (Some read_only_file_system, w)
    | WriteFile _ _ _ => fun w => (Some read_only_file_system, w)
    | e' => MemFS.handle _ e'
    end.
(** ** Facts about the string functions *)

Section StringFacts.

Lemma substring_0_cons (n : nat) (c : ascii) (s : string) :
  substring 0 (S n) (String c s) = String c (substring 0 n s).
Proof. reflexivity. Qed.

Lemma HasPrefix_nil (s : string) : HasPrefix s "" = true.
Proof. unfold HasPrefix; destruct s; reflexivity. Qed.

Lemma HasPrefix_cons (c p : ascii) (s q : string) :
  HasPrefix (String c s) (String p q) = Ascii.eqb c p && HasPrefix s q.
Proof.
  unfold HasPrefix. cbn [String.length]. rewrite substring_0_cons.
  change (S (String.length q) <=? S (String.length s))%nat
    with (String.length q <=? String.length s)%nat.
  cbn [String.eqb].
  destruct (String.length q <=? String.length s)%nat; cbn [andb].
  - reflexivity.
  - now rewrite andb_false_r.
Qed.

Lemma HasPrefix_app (p s : string) : HasPrefix (p ++ s) p = true.
Proof.
  induction p as [|c p IH]; cbn [append].
  - apply HasPrefix_nil.
  - rewrite HasPrefix_cons, Ascii.eqb_refl, IH. reflexivity.
Qed.

(** A longer prefix implies each of its own prefixes. *)
Lemma HasPrefix_weaken (s p q : string) :
  HasPrefix s (p ++ q) = true -> HasPrefix s p = true.
Proof.
  revert s; induction p as [|c p IH]; intros s H; cbn [append] in *.
  - apply HasPrefix_nil.
  - destruct s as [|d s]; [discriminate H|].
    rewrite HasPrefix_cons in *.
    apply andb_true_iff in H as [-> H]. cbn [andb]. now apply IH.
Qed.

Lemma HasPrefix_app_l (s p t : string) :
  HasPrefix s p = true -> HasPrefix (s ++ t) p = true.
Proof.
  revert s; induction p as [|c p IH]; intros s H.
  - apply HasPrefix_nil.
  - destruct s as [|d s]; [discriminate H|].
    cbn [append]. rewrite HasPrefix_cons in *.
    apply andb_true_iff in H as [-> H]. cbn [andb]. now apply IH.
Qed.

Lemma length_append (s t : string) :
  String.length (s ++ t) = (String.length s + String.length t)%nat.
Proof. induction s as [|c s IH]; cbn; [reflexivity | now rewrite IH]. Qed.

Lemma substring_skip (n m : nat) (c : ascii) (s : string) :
  substring (S n) m (String c s) = substring n m s.
Proof. reflexivity. Qed.

Lemma substring_all (s : string) : substring 0 (String.length s) s = s.
Proof. induction s as [|c s IH]; cbn; [reflexivity | now rewrite IH]. Qed.

Lemma TrimPrefix_app (p s : string) : TrimPrefix (p ++ s) p = s.
Proof.
  unfold TrimPrefix. rewrite HasPrefix_app.
  induction p as [|c p IH]; cbn [append String.length].
  - rewrite Nat.sub_0_r. apply substring_all.
  - rewrite substring_skip. exact IH.
Qed.

Lemma TrimPrefix_no (s p : string) :
  HasPrefix s p = false -> TrimPrefix s p = s.
Proof. unfold TrimPrefix; now intros ->. Qed.

End StringFacts.

Section SplitFacts.

Variable sep : ascii.

Lemma Count_le_length (s : string) : (Count s sep <= String.length s)%nat.
Proof.
  induction s as [|c s IH]; cbn; [lia|].
  destruct (Ascii.eqb c sep); lia.
Qed.

Lemma cut_None (s : string) : cut sep s = None <-> Count s sep = 0%nat.
Proof.
  induction s as [|c s IH]; cbn; [tauto|].
  destruct (Ascii.eqb c sep); cbn.
  - split; discriminate.
  - destruct (cut sep s) as [[a b]|].
    + split; [discriminate|]. intros H; apply IH in H; discriminate.
    + split; [intros _; now apply IH | reflexivity].
Qed.

Lemma cut_Some (s a b : string) :
  cut sep s = Some (a, b) ->
  s = a ++ String sep b /\ Count a sep = 0%nat
  /\ Count s sep = S (Count b sep).
Proof.
  revert a; induction s as [|c s IH]; intros a; cbn; [discriminate|].
  destruct (Ascii.eqb_spec c sep) as [->|Hc].
  - intros [= <- <-]. cbn. auto.
  - destruct (cut sep s) as [[a' b']|]; [|discriminate].
    intros [= <- <-]. destruct (IH a' eq_refl) as (-> & Ha & Hn).
    cbn. destruct (Ascii.eqb_spec c sep); [contradiction|]. auto.
Qed.

Lemma cut_app (a b : string) :
  Count a sep = 0%nat -> cut sep (a ++ String sep b) = Some (a, b).
Proof.
  induction a as [|c a IH]; cbn.
  - now rewrite Ascii.eqb_refl.
  - destruct (Ascii.eqb c sep); [discriminate|].
    intros H; now rewrite (IH H).
Qed.

(** With [n < 0] the loop runs [Count(s, sep)] times: every separator
    is cut. *)
Lemma Split_unfold (s : string) :
  Split s sep = match cut sep s with
                | None => [s]
                | Some (a, b) => a :: Split b sep
                end.
Proof.
  assert (E : forall t, Split t sep = splitLoop sep (Count t sep) t).
  { intros t. unfold Split, genSplit. cbn [Z.eqb Z.ltb Z.compare].
    pose proof (Count_le_length t).
    destruct (Z.gtb_spec (Z.of_nat (Count t sep) + 1)
                         (Z.of_nat (String.length t) + 1)); [lia|].
    f_equal. lia. }
  rewrite E. destruct (cut sep s) as [[a b]|] eqn:Hc.
  - destruct (cut_Some _ _ _ Hc) as (_ & _ & ->). cbn [splitLoop].
    now rewrite Hc, E.
  - destruct (Count s sep); cbn [splitLoop]; [reflexivity | now rewrite Hc].
Qed.

Lemma SplitN_all (s : string) : SplitN s sep (-1) = Split s sep.
Proof. reflexivity. Qed.

(** With [n = 2] only the first separator is cut. *)
Lemma SplitN_2 (s : string) :
  SplitN s sep 2 = match cut sep s with
                   | None => [s]
                   | Some (a, b) => [a; b]
                   end.
Proof.
  unfold SplitN, genSplit. cbn [Z.eqb Z.ltb Z.compare].
  destruct s as [|c s].
  - reflexivity.
  - destruct (Z.gtb_spec 2 (Z.of_nat (String.length (String c s)) + 1)) as [H|H].
    + cbn [String.length] in H. lia.
    + change (Z.to_nat (2 - 1)) with 1%nat. cbn [splitLoop].
      now destruct (cut sep (String c s)) as [[a b]|].
Qed.

Lemma Split_nonempty (s : string) : Split s sep <> [].
Proof. rewrite Split_unfold. now destruct (cut sep s) as [[a b]|]. Qed.

End SplitFacts.

(** ** The overlay option parser *)

Section ParseFacts.

(** The three prefixes start with different bytes: an option matches at
    most one of them. *)
Lemma prefixes_exclusive (o : string) :
  (HasPrefix o "upperdir" = true ->
   HasPrefix o "lowerdir" = false /\ HasPrefix o "workdir" = false)
  /\ (HasPrefix o "lowerdir" = true ->
      HasPrefix o "upperdir" = false /\ HasPrefix o "workdir" = false)
  /\ (HasPrefix o "workdir" = true ->
      HasPrefix o "upperdir" = false /\ HasPrefix o "lowerdir" = false).
Proof.
  destruct o as [|c o]; [repeat split; discriminate|].
  rewrite !HasPrefix_cons.
  repeat split;
    match goal with
    | H : _ && _ = true |- _ => apply andb_true_iff in H as [Hc _]
    end;
    apply Ascii.eqb_eq in Hc; subst c; reflexivity.
Qed.

Lemma step_upper (u l w o : string) :
  HasPrefix o "upperdir" = true ->
  ParseOverlayOption_step (u, l, w) o = (TrimPrefix o "upperdir=", l, w).
Proof. unfold ParseOverlayOption_step; now intros ->. Qed.

Lemma step_lower (u l w o : string) :
  HasPrefix o "lowerdir" = true ->
  ParseOverlayOption_step (u, l, w) o = (u, TrimPrefix o "lowerdir=", w).
Proof.
  intros H. destruct (prefixes_exclusive o) as (_ & E & _).
  destruct (E H) as [Hu _]. unfold ParseOverlayOption_step.
  now rewrite Hu, H.
Qed.

Lemma step_work (u l w o : string) :
  HasPrefix o "workdir" = true ->
  ParseOverlayOption_step (u, l, w) o = (u, l, TrimPrefix o "workdir=").
Proof.
  intros H. destruct (prefixes_exclusive o) as (_ & _ & E).
  destruct (E H) as [Hu Hl]. unfold ParseOverlayOption_step.
  now rewrite Hu, Hl, H.
Qed.

(** A round leaves a variable alone unless the option has its prefix. *)
Lemma step_keeps (acc : string * string * string) (o : string) :
  (HasPrefix o "upperdir" = false ->
   upper_of (ParseOverlayOption_step acc o) = upper_of acc)
  /\ (HasPrefix o "lowerdir" = false ->
      lower_of (ParseOverlayOption_step acc o) = lower_of acc)
  /\ (HasPrefix o "workdir" = false ->
      work_of (ParseOverlayOption_step acc o) = work_of acc).
Proof.
  destruct acc as [[u l] w]. unfold ParseOverlayOption_step.
  repeat split; intros H; try rewrite H;
    destruct (HasPrefix o "upperdir"), (HasPrefix o "lowerdir"),
      (HasPrefix o "workdir"); try discriminate; reflexivity.
Qed.

Lemma fold_keeps_upper (opts : list string) (acc : string * string * string) :
  Forall (fun o => HasPrefix o "upperdir" = false) opts ->
  upper_of (fold_left ParseOverlayOption_step opts acc) = upper_of acc.
Proof.
  intros F; revert acc; induction F as [|o opts Ho _ IH]; intros acc; cbn.
  - reflexivity.
  - rewrite IH. now apply step_keeps.
Qed.

Lemma fold_keeps_lower (opts : list string) (acc : string * string * string) :
  Forall (fun o => HasPrefix o "lowerdir" = false) opts ->
  lower_of (fold_left ParseOverlayOption_step opts acc) = lower_of acc.
Proof.
  intros F; revert acc; induction F as [|o opts Ho _ IH]; intros acc; cbn.
  - reflexivity.
  - rewrite IH. now apply step_keeps.
Qed.

Lemma fold_keeps_work (opts : list string) (acc : string * string * string) :
  Forall (fun o => HasPrefix o "workdir" = false) opts ->
  work_of (fold_left ParseOverlayOption_step opts acc) = work_of acc.
Proof.
  intros F; revert acc; induction F as [|o opts Ho _ IH]; intros acc; cbn.
  - reflexivity.
  - rewrite IH. now apply step_keeps.
Qed.

(** The last option with a prefix decides its variable. *)
Lemma last_upper (m : Mount) (pre post : list string) (o : string) :
  Options m = (pre ++ o :: post)%list ->
  HasPrefix o "upperdir" = true ->
  Forall (fun o => HasPrefix o "upperdir" = false) post ->
  upper_of (ParseOverlayOption m) = TrimPrefix o "upperdir=".
Proof.
  intros E Ho F. unfold ParseOverlayOption; rewrite E.
  rewrite fold_left_app; cbn [fold_left].
  rewrite (fold_keeps_upper _ _ F).
  destruct (fold_left ParseOverlayOption_step pre _) as [[u l] w].
  now rewrite step_upper.
Qed.

Lemma last_lower (m : Mount) (pre post : list string) (o : string) :
  Options m = (pre ++ o :: post)%list ->
  HasPrefix o "lowerdir" = true ->
  Forall (fun o => HasPrefix o "lowerdir" = false) post ->
  lower_of (ParseOverlayOption m) = TrimPrefix o "lowerdir=".
Proof.
  intros E Ho F. unfold ParseOverlayOption; rewrite E.
  rewrite fold_left_app; cbn [fold_left].
  rewrite (fold_keeps_lower _ _ F).
  destruct (fold_left ParseOverlayOption_step pre _) as [[u l] w].
  now rewrite step_lower.
Qed.

Lemma last_work (m : Mount) (pre post : list string) (o : string) :
  Options m = (pre ++ o :: post)%list ->
  HasPrefix o "workdir" = true ->
  Forall (fun o => HasPrefix o "workdir" = false) post ->
  work_of (ParseOverlayOption m) = TrimPrefix o "workdir=".
Proof.
  intros E Ho F. unfold ParseOverlayOption; rewrite E.
  rewrite fold_left_app; cbn [fold_left].
  rewrite (fold_keeps_work _ _ F).
  destruct (fold_left ParseOverlayOption_step pre _) as [[u l] w].
  now rewrite step_work.
Qed.

Lemma none_upper (m : Mount) :
  Forall (fun o => HasPrefix o "upperdir" = false) (Options m) ->
  upper_of (ParseOverlayOption m) = "".
Proof. intros F. unfold ParseOverlayOption. now rewrite fold_keeps_upper. Qed.

Lemma none_lower (m : Mount) :
  Forall (fun o => HasPrefix o "lowerdir" = false) (Options m) ->
  lower_of (ParseOverlayOption m) = "".
Proof. intros F. unfold ParseOverlayOption. now rewrite fold_keeps_lower. Qed.

Lemma none_work (m : Mount) :
  Forall (fun o => HasPrefix o "workdir" = false) (Options m) ->
  work_of (ParseOverlayOption m) = "".
Proof. intros F. unfold ParseOverlayOption. now rewrite fold_keeps_work. Qed.

(** A list with an element that satisfies [p] splits at the last one. *)
Lemma split_at_last {A : Type} (p : A -> bool) (l : list A) (x : A) :
  In x l -> p x = true ->
  exists pre o post,
    l = (pre ++ o :: post)%list /\ p o = true
    /\ Forall (fun y => p y = false) post.
Proof.
  revert x; induction l as [|a l IH]; intros x Hin Hp; [destruct Hin|].
  destruct (existsb p l) eqn:E.
  - apply existsb_exists in E as (y & Hy & Hpy).
    destruct (IH y Hy Hpy) as (pre & o & post & -> & Ho & F).
    exists (a :: pre), o, post. auto.
  - assert (F : Forall (fun y => p y = false) l).
    { apply Forall_forall; intros y Hy.
      destruct (p y) eqn:Hpy; [|reflexivity].
      assert (existsb p l = true) by (apply existsb_exists; eauto).
      congruence. }
    destruct Hin as [->|Hin].
    + exists [], x, l. auto.
    + rewrite Forall_forall in F. specialize (F x Hin). congruence.
Qed.

Lemma unrelated_spec (o : string) :
  unrelated o = true <->
  HasPrefix o "upperdir" = false /\ HasPrefix o "lowerdir" = false
  /\ HasPrefix o "workdir" = false.
Proof.
  unfold unrelated.
  destruct (HasPrefix o "upperdir"), (HasPrefix o "lowerdir"),
    (HasPrefix o "workdir"); cbn; intuition congruence.
Qed.

(** Among the three directory options and unrelated ones, an option with
    a prefix is the directory option of that prefix. *)
Lemma only_directory_option (U L W o : string) (rest : list string) :
  In o (("upperdir=" ++ U) :: ("lowerdir=" ++ L) :: ("workdir=" ++ W) :: rest) ->
  Forall (fun o => unrelated o = true) rest ->
  (HasPrefix o "upperdir" = true -> o = "upperdir=" ++ U)
  /\ (HasPrefix o "lowerdir" = true -> o = "lowerdir=" ++ L)
  /\ (HasPrefix o "workdir" = true -> o = "workdir=" ++ W).
Proof.
  intros Hin F. rewrite Forall_forall in F.
  destruct Hin as [<-|[<-|[<-|Hin]]].
  - repeat split; intros H; try reflexivity;
      cbn [append] in H;
      rewrite HasPrefix_cons in H; discriminate H.
  - repeat split; intros H; try reflexivity;
      cbn [append] in H;
      rewrite HasPrefix_cons in H; discriminate H.
  - repeat split; intros H; try reflexivity;
      cbn [append] in H;
      rewrite HasPrefix_cons in H; discriminate H.
  - apply F, unrelated_spec in Hin as (Hu & Hl & Hw).
    repeat split; congruence.
Qed.

End ParseFacts.

(** C7.  For a mount whose options are [upperdir=U], [lowerdir=L] and
    [workdir=W] in any order, among any options that start with none of
    the three prefixes, [ParseOverlayOption] returns exactly [(U, L, W)].
    A directory with no option of its prefix comes back as the empty
    string; of several options with one prefix the last decides; and the
    function returns on every option list. *)
Theorem ParseOverlayOption_any_order_last_wins :
  (forall (m : Mount) (U L W : string) (rest : list string),
      Permutation (Options m)
        (("upperdir=" ++ U) :: ("lowerdir=" ++ L) :: ("workdir=" ++ W) :: rest) ->
      Forall (fun o => unrelated o = true) rest ->
      ParseOverlayOption m = (U, L, W))
  /\ (forall m : Mount,
         (Forall (fun o => HasPrefix o "upperdir" = false) (Options m) ->
          upper_of (ParseOverlayOption m) = "")
         /\ (Forall (fun o => HasPrefix o "lowerdir" = false) (Options m) ->
             lower_of (ParseOverlayOption m) = "")
         /\ (Forall (fun o => HasPrefix o "workdir" = false) (Options m) ->
             work_of (ParseOverlayOption m) = ""))
  /\ (forall (m : Mount) (pre post : list string) (X : string),
         (Options m = (pre ++ ("upperdir=" ++ X)%string :: post)%list ->
          Forall (fun o => HasPrefix o "upperdir" = false) post ->
          upper_of (ParseOverlayOption m) = X)
         /\ (Options m = (pre ++ ("lowerdir=" ++ X)%string :: post)%list ->
             Forall (fun o => HasPrefix o "lowerdir" = false) post ->
             lower_of (ParseOverlayOption m) = X)
         /\ (Options m = (pre ++ ("workdir=" ++ X)%string :: post)%list ->
             Forall (fun o => HasPrefix o "workdir" = false) post ->
             work_of (ParseOverlayOption m) = X))
  /\ (forall m : Mount,
         exists upper lower work : string,
           ParseOverlayOption m = (upper, lower, work)).
Proof.
  split; [|split; [|split]].
  - intros m U L W rest P F.
    assert (Hin : forall o, In o (Options m) ->
                  In o (("upperdir=" ++ U) :: ("lowerdir=" ++ L)
                          :: ("workdir=" ++ W) :: rest))
      by (intros o; apply Permutation_in, P).
    assert (Hu : upper_of (ParseOverlayOption m) = U).
    { destruct (split_at_last (fun o => HasPrefix o "upperdir") (Options m)
                  ("upperdir=" ++ U)) as (pre & o & post & E & Ho & Fp).
      - apply (Permutation_in _ (Permutation_sym P)). now left.
      - apply (HasPrefix_weaken _ "upperdir" "="), HasPrefix_app.
      - rewrite (last_upper m pre post o E Ho Fp).
        assert (Hm : In o (Options m)) by (rewrite E; apply in_elt).
        destruct (only_directory_option U L W o rest (Hin o Hm) F) as (K & _).
        rewrite (K Ho). apply TrimPrefix_app. }
    assert (Hl : lower_of (ParseOverlayOption m) = L).
    { destruct (split_at_last (fun o => HasPrefix o "lowerdir") (Options m)
                  ("lowerdir=" ++ L)) as (pre & o & post & E & Ho & Fp).
      - apply (Permutation_in _ (Permutation_sym P)). right; now left.
      - apply (HasPrefix_weaken _ "lowerdir" "="), HasPrefix_app.
      - rewrite (last_lower m pre post o E Ho Fp).
        assert (Hm : In o (Options m)) by (rewrite E; apply in_elt).
        destruct (only_directory_option U L W o rest (Hin o Hm) F)
          as (_ & K & _).
        rewrite (K Ho). apply TrimPrefix_app. }
    assert (Hw : work_of (ParseOverlayOption m) = W).
    { destruct (split_at_last (fun o => HasPrefix o "workdir") (Options m)
                  ("workdir=" ++ W)) as (pre & o & post & E & Ho & Fp).
      - apply (Permutation_in _ (Permutation_sym P)). right; right; now left.
      - apply (HasPrefix_weaken _ "workdir" "="), HasPrefix_app.
      - rewrite (last_work m pre post o E Ho Fp).
        assert (Hm : In o (Options m)) by (rewrite E; apply in_elt).
        destruct (only_directory_option U L W o rest (Hin o Hm) F)
          as (_ & _ & K).
        rewrite (K Ho). apply TrimPrefix_app. }
    destruct (ParseOverlayOption m) as [[u l] w].
    unfold upper_of, lower_of, work_of in *; cbn in *. congruence.
  - intros m. repeat split.
    + apply none_upper.
    + apply none_lower.
    + apply none_work.
  - intros m pre post X. repeat split; intros E F.
    + rewrite (last_upper m pre post _ E); [apply TrimPrefix_app | | exact F].
      apply (HasPrefix_weaken _ "upperdir" "="), HasPrefix_app.
    + rewrite (last_lower m pre post _ E); [apply TrimPrefix_app | | exact F].
      apply (HasPrefix_weaken _ "lowerdir" "="), HasPrefix_app.
    + rewrite (last_work m pre post _ E); [apply TrimPrefix_app | | exact F].
      apply (HasPrefix_weaken _ "workdir" "="), HasPrefix_app.
  - intros m. destruct (ParseOverlayOption m) as [[u l] w]. eauto.
Qed.

(** The work directory first, a flag in between, and an older upper
    directory that the later one overrides. *)
Lemma ParseOverlayOption_any_order_witness :
  ParseOverlayOption
    {| Type' := "overlay"; Source := "overlay";
       Options := ["workdir=/c"; "ro"; "upperdir=/a"; "lowerdir=/b"] |}
  = ("/a", "/b", "/c")
  /\ upper_of (ParseOverlayOption
                 {| Type' := "overlay"; Source := "overlay";
                    Options := ["upperdir=/old"; "upperdir=/a"; "ro"] |})
     = "/a".
Proof.
  split.
  - apply (proj1 ParseOverlayOption_any_order_last_wins _ "/a" "/b" "/c" ["ro"]).
    + apply (Permutation_app_comm ["workdir=/c"; "ro"]
               ["upperdir=/a"; "lowerdir=/b"]).
    + repeat constructor.
  - apply (proj1 (proj1 (proj2 (proj2 ParseOverlayOption_any_order_last_wins))
                    _ ["upperdir=/old"] ["ro"] "/a")).
    + reflexivity.
    + repeat constructor.
Defined.

(** C10.  The three cases of the loop test the bare words [upperdir],
    [lowerdir] and [workdir].  An option that starts with the word but not
    with the word and [=] is consumed by the word's case, and the whole
    option, untrimmed, is the value returned for it; the other two values
    are those of the options before it. *)
Theorem ParseOverlayOption_bare_prefix
    (m : Mount) (pre : list string) (o : string) :
  Options m = (pre ++ [o])%list ->
  let before :=
    ParseOverlayOption
      {| Type' := Type' m; Source := Source m; Options := pre |} in
  (HasPrefix o "upperdir" = true -> HasPrefix o "upperdir=" = false ->
   ParseOverlayOption m = (o, lower_of before, work_of before))
  /\ (HasPrefix o "lowerdir" = true -> HasPrefix o "lowerdir=" = false ->
      ParseOverlayOption m = (upper_of before, o, work_of before))
  /\ (HasPrefix o "workdir" = true -> HasPrefix o "workdir=" = false ->
      ParseOverlayOption m = (upper_of before, lower_of before, o)).
Proof.
  intros E before. subst before. unfold ParseOverlayOption. cbn [Options].
  rewrite E, fold_left_app. cbn [fold_left].
  destruct (fold_left ParseOverlayOption_step pre ("", "", "")) as [[u l] w].
  unfold upper_of, lower_of, work_of; cbn [fst snd].
  repeat split; intros Hp Hn.
  - now rewrite step_upper, TrimPrefix_no.
  - now rewrite step_lower, TrimPrefix_no.
  - now rewrite step_work, TrimPrefix_no.
Qed.

Lemma ParseOverlayOption_bare_prefix_witness :
  ParseOverlayOption
    {| Type' := "overlay"; Source := "overlay";
       Options := ["lowerdir=/b"; "upperdir2=/x"] |}
  = ("upperdir2=/x", "/b", "").
Proof.
  exact (proj1 (ParseOverlayOption_bare_prefix
                  {| Type' := "overlay"; Source := "overlay";
                     Options := ["lowerdir=/b"; "upperdir2=/x"] |}
                  ["lowerdir=/b"] "upperdir2=/x" eq_refl)
           eq_refl eq_refl).
Defined.

(** ** Runs of programs *)

Section RunFacts.

Context {W : Type} (h : handler W).

Lemma run_bind {A B : Type} (m : IO A) (f : A -> IO B) (w : W) :
  run h (bind m f) w = run h (f (fst (run h m w))) (snd (run h m w)).
Proof.
  revert w; induction m as [a|X e k IH]; intros w; cbn.
  - reflexivity.
  - destruct (h X e w) as [x w']. apply IH.
Qed.

Lemma calls_bind {A B : Type} (m : IO A) (f : A -> IO B) (w : W) :
  calls h (bind m f) w
  = (calls h m w ++ calls h (f (fst (run h m w))) (snd (run h m w)))%list.
Proof.
  revert w; induction m as [a|X e k IH]; intros w; cbn.
  - reflexivity.
  - destruct (h X e w) as [x w']. cbn. now rewrite IH.
Qed.

Lemma run_trigger {X : Type} (e : fsE X) (w : W) :
  run h (trigger e) w = h X e w.
Proof. cbn. now destruct (h X e w). Qed.

Lemma calls_trigger {X : Type} (e : fsE X) (w : W) :
  calls h (trigger e) w = [call_of e].
Proof. cbn. now destruct (h X e w). Qed.

(** [HookMounts] once the specification is read. *)
Lemma run_HookMounts `{Externals} (mounts : list Mount) (configPath : string)
    (w : W) (spec : Spec) :
  fst (h _ (ReadSpec configPath) w) = inr spec ->
  run h (Layered.HookMounts mounts configPath) w
  = run h (Layered.HookMounts_cfg mounts
             (Layered.config_of_env (Env (Process_ spec))))
      (snd (h _ (ReadSpec configPath) w)).
Proof.
  intros E. unfold Layered.HookMounts, Layered.ReadExternalRootFSConfigFromENV.
  cbn. destruct (h _ (ReadSpec configPath) w) as [r w']. cbn in *. now subst r.
Qed.

Lemma run_HookMounts_error `{Externals} (mounts : list Mount)
    (configPath : string) (w : W) (err : error) :
  fst (h _ (ReadSpec configPath) w) = inl err ->
  fst (run h (Layered.HookMounts mounts configPath) w) = ([], Some err).
Proof.
  intros E. unfold Layered.HookMounts, Layered.ReadExternalRootFSConfigFromENV.
  cbn. destruct (h _ (ReadSpec configPath) w) as [r w']. cbn in *. now subst r.
Qed.

Lemma run_Simple_HookMounts (mounts : list Mount) (configPath : string)
    (w : W) (spec : Spec) :
  fst (h _ (ReadSpec configPath) w) = inr spec ->
  run h (Simple.HookMounts mounts configPath) w
  = run h (Simple.HookMounts_cfg mounts
             (Simple.config_of_env (Env (Process_ spec))))
      (snd (h _ (ReadSpec configPath) w)).
Proof.
  intros E. unfold Simple.HookMounts, Simple.ReadExternalRootFSConfigFromENV.
  cbn. destruct (h _ (ReadSpec configPath) w) as [r w']. cbn in *. now subst r.
Qed.

End RunFacts.

(** ** The snapshot writer *)

(** C9.  [WriteMounts] on an empty list returns no error and makes no
    call on the file system.  On a list that is not empty and that
    [json.Marshal] serializes, it makes one call, [os.WriteFile] of the
    serialized list with permission [0600] on the path joined with
    [mounts.json], and returns what the call returns; after a run
    without error the file holds the serialized list, whatever it held
    before. *)
Theorem WriteMounts_contract `{Externals} :
  (forall path : string, WriteMounts path [] = Ret None)
  /\ (forall (W : Type) (h : handler W) (w : W) (path : string),
         run h (WriteMounts path []) w = (None, w)
         /\ calls h (WriteMounts path []) w = [])
  /\ (forall (W : Type) (h : handler W) (w : W) (path : string)
             (mounts : list Mount) (b : bytes),
         mounts <> [] ->
         json_Marshal_mounts mounts = inr b ->
         let file := filepath_Join path MountConfigName in
         calls h (WriteMounts path mounts) w
         = [CallWriteFile file b perm_0600]
         /\ perm_0600 = 384%N
         /\ run h (WriteMounts path mounts) w
            = h _ (WriteFile file b perm_0600) w
         /\ (WriteFile_truncates h ->
             fst (run h (WriteMounts path mounts) w) = None ->
             fst (h _ (ReadFile file) (snd (run h (WriteMounts path mounts) w)))
             = inr b)).
Proof.
  split; [reflexivity|]. split; [intros; split; reflexivity|].
  intros W h w path mounts b Hne Hb file.
  assert (E : WriteMounts path mounts = trigger (WriteFile file b perm_0600)).
  { unfold WriteMounts. destruct mounts as [|m ms]; [contradiction|].
    cbn [List.length Nat.eqb]. now rewrite Hb. }
  rewrite E, run_trigger, calls_trigger. repeat split.
  intros T Hok. now apply T.
Qed.

(** ** The branches of [HookMounts] *)

Section BranchFacts.

Context `{Externals}.

Lemma single_overlay_spec (mounts : list Mount) :
  single_overlay mounts = true <->
  exists m : Mount, mounts = [m] /\ Type' m = "overlay".
Proof.
  unfold single_overlay. split.
  - intros E. apply andb_true_iff in E as [El Et].
    destruct mounts as [|m [|m' ms]]; try discriminate El.
    exists m. split; [reflexivity|]. now apply String.eqb_eq.
  - intros (m & -> & Et). cbn. now apply String.eqb_eq.
Qed.

Lemma device_is_not_overlay :
  (ExternalRootFSDriverDevice =? ExternalRootFSDriverOverlay) = false.
Proof. reflexivity. Qed.

(** C3.  With the overlay driver and one mount of type [overlay], and
    when the upper directory of the configuration, if there is one, is
    created without error, [HookMounts] returns no error and exactly one
    mount, of type [overlay] and source [overlay], with the options
    [upperdir=], [lowerdir=], [workdir=] and [index=off] in this order:
    upper and lower are those parsed from the original mount unless the
    configuration gives one that is not empty, and the work directory is
    always the parsed one. *)
Theorem overlay_override_mount {W : Type} (h : handler W) (w : W)
    (cfg : Layered.ExternalRootFSConfig) (m : Mount) :
  Layered.Driver cfg = "overlay" ->
  Type' m = "overlay" ->
  (Layered.OverlayUpper cfg <> "" ->
   fst (h _ (MkdirAll (Layered.OverlayUpper cfg) perm_0777) w) = None) ->
  let parsed := ParseOverlayOption m in
  let upper := if Layered.OverlayUpper cfg =? ""
               then upper_of parsed else Layered.OverlayUpper cfg in
  let lower := if Layered.OverlayLower cfg =? ""
               then lower_of parsed else Layered.OverlayLower cfg in
  fst (run h (Layered.HookMounts_cfg [m] cfg) w)
  = ([ {| Type' := "overlay";
          Source := "overlay";
          Options := [ "upperdir=" ++ upper; "lowerdir=" ++ lower;
                       "workdir=" ++ work_of parsed; "index=off" ] |} ],
     None).
Proof.
  intros Hd Ht Hmk parsed upper lower. subst parsed upper lower.
  unfold Layered.HookMounts_cfg, single_overlay. cbn [List.length nth Nat.eqb].
  unfold ExternalRootFSDriverOverlay. rewrite Hd, Ht, !String.eqb_refl.
  cbn [andb]. unfold overlayOverride.
  destruct (ParseOverlayOption m) as [[u l] w0].
  unfold upper_of, lower_of, work_of, Sprintf_s; cbn [fst snd].
  destruct (String.eqb_spec (Layered.OverlayUpper cfg) "") as [E|E];
    cbn [negb bind].
  - destruct (Layered.OverlayLower cfg =? ""); reflexivity.
  - specialize (Hmk E). unfold trigger; cbn [bind run].
    destruct (h _ (MkdirAll (Layered.OverlayUpper cfg) perm_0777) w)
      as [r w']; cbn [fst] in Hmk; subst r.
    destruct (Layered.OverlayLower cfg =? ""); reflexivity.
Qed.

(** When the directory cannot be created the error of [os.MkdirAll] is
    returned, and no mount. *)
Lemma overlay_override_mkdir_error {W : Type} (h : handler W) (w : W)
    (cfg : Layered.ExternalRootFSConfig) (m : Mount) (err : error) :
  Layered.Driver cfg = "overlay" ->
  Type' m = "overlay" ->
  Layered.OverlayUpper cfg <> "" ->
  fst (h _ (MkdirAll (Layered.OverlayUpper cfg) perm_0777) w) = Some err ->
  fst (run h (Layered.HookMounts_cfg [m] cfg) w) = ([], Some err).
Proof.
  intros Hd Ht E Hmk.
  unfold Layered.HookMounts_cfg, single_overlay. cbn [List.length nth Nat.eqb].
  unfold ExternalRootFSDriverOverlay. rewrite Hd, Ht, !String.eqb_refl.
  cbn [andb]. unfold overlayOverride.
  destruct (ParseOverlayOption m) as [[u l] w0].
  apply String.eqb_neq in E. rewrite E. cbn [negb bind].
  unfold trigger; cbn [bind run].
  destruct (h _ (MkdirAll (Layered.OverlayUpper cfg) perm_0777) w)
    as [r w']; cbn [fst] in Hmk; subst r. reflexivity.
Qed.

(** C4.  The overlay branch is the one taken exactly when the driver is
    [overlay] and the caller gives one mount, of type [overlay].  When it
    is not, the device branch is taken for the driver [device], and for
    every other driver the mounts of the caller are returned as they are,
    with no error and no call on the file system; so they are for the
    overlay driver with two mounts. *)
Theorem HookMounts_branch_selection
    (mounts : list Mount) (cfg : Layered.ExternalRootFSConfig) :
  let overlay_selected :=
    Layered.Driver cfg = "overlay"
    /\ exists m : Mount, mounts = [m] /\ Type' m = "overlay" in
  (overlay_selected ->
   exists m : Mount,
     mounts = [m]
     /\ Layered.HookMounts_cfg mounts cfg
        = overlayOverride (Layered.OverlayLower cfg)
            (Layered.OverlayUpper cfg) m)
  /\ (~ overlay_selected -> Layered.Driver cfg = "device" ->
      Layered.HookMounts_cfg mounts cfg = Layered.externalDevice cfg)
  /\ (~ overlay_selected -> Layered.Driver cfg <> "device" ->
      Layered.HookMounts_cfg mounts cfg = Ret (mounts, None))
  /\ (forall m1 m2 : Mount,
         Layered.Driver cfg = "overlay" ->
         Layered.HookMounts_cfg [m1; m2] cfg = Ret ([m1; m2], None)).
Proof.
  intros overlay_selected.
  assert (Hsel : overlay_selected <->
                 (Layered.Driver cfg =? ExternalRootFSDriverOverlay)
                 && single_overlay mounts = true).
  { unfold overlay_selected.
    rewrite andb_true_iff, String.eqb_eq, single_overlay_spec. reflexivity. }
  unfold Layered.HookMounts_cfg.
  split; [|split; [|split]].
  - intros Hs. destruct (proj2 Hs) as (m & -> & Ht).
    apply Hsel in Hs. rewrite Hs. exists m. now split.
  - intros Hn Hd.
    destruct ((Layered.Driver cfg =? ExternalRootFSDriverOverlay)
              && single_overlay mounts) eqn:E; [now elim Hn; apply Hsel|].
    apply String.eqb_eq in Hd. unfold ExternalRootFSDriverDevice. now rewrite Hd.
  - intros Hn Hd.
    destruct ((Layered.Driver cfg =? ExternalRootFSDriverOverlay)
              && single_overlay mounts) eqn:E; [now elim Hn; apply Hsel|].
    apply String.eqb_neq in Hd. unfold ExternalRootFSDriverDevice. now rewrite Hd.
  - intros m1 m2 Hd. rewrite Hd. reflexivity.
Qed.

End BranchFacts.

(** ** The device branch *)

Section DeviceFacts.

Context `{Externals}.

Lemma first_nonempty_cons (s : string) (rest : list string) (d : string) :
  first_nonempty (s :: rest) d
  = if negb (s =? "") then s else first_nonempty rest d.
Proof. unfold first_nonempty; cbn. now destruct (s =? ""). Qed.

(** The result of [externalDevice] in terms of what the descriptor file
    gave. *)
Lemma run_externalDevice {W : Type} (h : handler W) (w : W)
    (c : Layered.ExternalRootFSConfig) (ed : option ExtDevice.t) :
  descriptor_read h w c ed ->
  fst (run h (Layered.externalDevice c) w)
  = if resolved_device c ed =? "" then ([], Some MissingDeviceError)
    else ([ {| Type' := resolved_fstype c ed;
               Source := resolved_device c ed;
               Options := resolved_options c |} ], None).
Proof.
  unfold resolved_device, resolved_fstype, resolved_options.
  rewrite !first_nonempty_cons.
  intros [[Ec ->]|(Ec & b & d & Hb & Hd & ->)];
    unfold Layered.externalDevice.
  - rewrite Ec. cbn [String.eqb negb bind run].
    unfold first_nonempty; cbn [find].
    destruct (Layered.DeviceFSType c =? ""), (Layered.DeviceMountOpts c =? "");
      cbn [negb];
      destruct (String.eqb_spec (Layered.Device c) "") as [E|E];
      cbn [negb]; rewrite ?String.eqb_refl; try reflexivity;
      apply String.eqb_neq in E; now rewrite E.
  - apply String.eqb_neq in Ec. rewrite Ec. cbn [negb].
    unfold trigger; cbn [bind run].
    destruct (h _ (ReadFile (Layered.DeviceConfig c)) w) as [r w'].
    cbn [fst] in Hb; subst r. rewrite Hd. cbn [bind run].
    rewrite !first_nonempty_cons. unfold first_nonempty; cbn [find].
    destruct (ExtDevice.FilesystemType d =? ""),
      (Layered.DeviceFSType c =? ""), (Layered.DeviceMountOpts c =? "");
      cbn [negb];
      destruct (String.eqb_spec (Layered.Device c) "") as [E|E];
      cbn [negb];
      destruct (String.eqb_spec (ExtDevice.Device d) "") as [E'|E'];
      cbn [negb]; rewrite ?E'; rewrite ?String.eqb_refl; try reflexivity;
      try (apply String.eqb_neq in E; now rewrite E);
      try (apply String.eqb_neq in E'; now rewrite E').
Qed.

(** C1.  The device branch starts from the type [xfs], no device and the
    options [rw].  The type returned is [cfg.deviceFSType] if it is not
    empty, else the descriptor's type if a descriptor is read and its
    type is not empty, else [xfs]; the device is [cfg.device] if it is
    not empty, else the descriptor's device; the options are
    [cfg.deviceMountOpts] split at each comma if it is not empty, else
    [rw].  So a descriptor with the device [/dev/a] and no type, under a
    configuration with no device, the type [ext4] and no mount options,
    gives the one mount of type [ext4], source [/dev/a] and options
    [rw]. *)
Theorem externalDevice_layering {W : Type} (h : handler W) (w : W)
    (c : Layered.ExternalRootFSConfig) (ed : option ExtDevice.t) :
  descriptor_read h w c ed ->
  let fsType :=
    if negb (Layered.DeviceFSType c =? "") then Layered.DeviceFSType c
    else match ed with
         | Some d =>
             if negb (ExtDevice.FilesystemType d =? "")
             then ExtDevice.FilesystemType d else "xfs"
         | None => "xfs"
         end in
  let device :=
    if negb (Layered.Device c =? "") then Layered.Device c
    else match ed with
         | Some d => ExtDevice.Device d
         | None => ""
         end in
  let mountOpt :=
    if negb (Layered.DeviceMountOpts c =? "")
    then Split (Layered.DeviceMountOpts c) "," else ["rw"] in
  (device <> "" ->
   fst (run h (Layered.externalDevice c) w)
   = ([ {| Type' := fsType; Source := device; Options := mountOpt |} ], None))
  /\ (ed = Some {| ExtDevice.Device := "/dev/a";
                   ExtDevice.FilesystemType := "" |} ->
      Layered.Device c = "" ->
      Layered.DeviceFSType c = "ext4" ->
      Layered.DeviceMountOpts c = "" ->
      fst (run h (Layered.externalDevice c) w)
      = ([ {| Type' := "ext4"; Source := "/dev/a"; Options := ["rw"] |} ],
         None)).
Proof.
  intros R fsType device mountOpt.
  rewrite (run_externalDevice h w c ed R).
  assert (Ed : resolved_device c ed = device).
  { unfold resolved_device, device. rewrite first_nonempty_cons.
    destruct (Layered.Device c =? ""); cbn [negb]; [|reflexivity].
    destruct ed as [d|]; [|reflexivity].
    rewrite first_nonempty_cons. unfold first_nonempty; cbn [find].
    destruct (String.eqb_spec (ExtDevice.Device d) ""); cbn [negb]; congruence. }
  assert (Ef : resolved_fstype c ed = fsType).
  { unfold resolved_fstype, fsType. rewrite first_nonempty_cons.
    destruct (Layered.DeviceFSType c =? ""); cbn [negb]; [|reflexivity].
    destruct ed as [d|]; [|reflexivity].
    rewrite first_nonempty_cons. reflexivity. }
  assert (Eo : resolved_options c = mountOpt).
  { unfold resolved_options, mountOpt.
    now destruct (Layered.DeviceMountOpts c =? ""). }
  rewrite Ed, Ef, Eo. split.
  - intros Hne. apply String.eqb_neq in Hne. now rewrite Hne.
  - intros -> Hdev Hfs Hopt. subst fsType device mountOpt.
    rewrite Hdev, Hfs, Hopt. reflexivity.
Qed.

(** C2.  With the driver [device], when the device is still empty after
    the inline value and, if [cfg.deviceConfig] is set, the descriptor
    file, [HookMounts] returns the error of a missing device and no
    mount; so it does with no device name and no descriptor file. *)
Theorem device_driver_without_device {W : Type} (h : handler W) (w : W)
    (mounts : list Mount) (c : Layered.ExternalRootFSConfig)
    (ed : option ExtDevice.t) :
  Layered.Driver c = "device" ->
  descriptor_read h w c ed ->
  Layered.Device c = "" ->
  match ed with Some d => ExtDevice.Device d = "" | None => True end ->
  fst (run h (Layered.HookMounts_cfg mounts c) w)
  = ([], Some (Errorf "use external deivce as rootfs, but config is empty"))
  /\ (Layered.DeviceConfig c = "" ->
      Layered.HookMounts_cfg mounts c
      = Ret ([], Some (Errorf
                         "use external deivce as rootfs, but config is empty"))).
Proof.
  intros Hd R Hdev Hed.
  assert (E : Layered.HookMounts_cfg mounts c = Layered.externalDevice c).
  { unfold Layered.HookMounts_cfg. rewrite Hd. reflexivity. }
  rewrite E. split.
  - rewrite (run_externalDevice h w c ed R).
    assert (Er : resolved_device c ed = "").
    { unfold resolved_device. rewrite first_nonempty_cons, Hdev. cbn.
      destruct ed as [d|]; [|reflexivity].
      rewrite first_nonempty_cons, Hed. reflexivity. }
    rewrite Er. reflexivity.
  - intros Ec. unfold Layered.externalDevice. rewrite Ec, Hdev. cbn.
    now destruct (Layered.DeviceFSType c =? ""),
      (Layered.DeviceMountOpts c =? "").
Qed.

(** The two listings are the same program when the device branch of
    neither is taken, or the device and its type are both inline. *)
Lemma HookMounts_cfg_agree
    (mounts : list Mount) (cfg : Layered.ExternalRootFSConfig) :
  Layered.DeviceConfig cfg = "" ->
  Layered.DeviceMountOpts cfg = "" ->
  Layered.Driver cfg <> "device"
  \/ (Layered.Device cfg <> "" /\ Layered.DeviceFSType cfg <> "") ->
  Layered.HookMounts_cfg mounts cfg
  = Simple.HookMounts_cfg mounts (simple_of cfg).
Proof.
  intros Ec Eo Hc.
  unfold Layered.HookMounts_cfg, Simple.HookMounts_cfg, simple_of.
  cbn [Simple.Driver Simple.OverlayLower Simple.OverlayUpper Simple.Device
       Simple.DeviceFSType].
  destruct (String.eqb_spec (Layered.Driver cfg) ExternalRootFSDriverDevice)
    as [Hd|Hd].
  - destruct Hc as [Hn|[Hdev Hfs]]; [now elim Hn|].
    rewrite Hd, device_is_not_overlay. cbn [andb].
    unfold Layered.externalDevice. rewrite Ec, Eo. cbn [String.eqb negb bind].
    apply String.eqb_neq in Hdev, Hfs. rewrite Hdev, Hfs. cbn [negb].
    now rewrite Hdev.
  - destruct ((Layered.Driver cfg =? ExternalRootFSDriverOverlay)
              && single_overlay mounts); reflexivity.
Qed.

(** C5, as the code has it.  With no descriptor file and no mount
    options in the configuration, the two listings of [HookMounts] are
    the same program exactly when the driver is not [device], or the
    device and its filesystem type are both given.  With the driver
    [device] and no device the first listing fails where the second
    returns the mounts of the caller, and with no filesystem type the
    first mounts [xfs] where the second leaves the type empty. *)
Theorem layered_agrees_with_simple
    (mounts : list Mount) (cfg : Layered.ExternalRootFSConfig) :
  Layered.DeviceConfig cfg = "" ->
  Layered.DeviceMountOpts cfg = "" ->
  Layered.HookMounts_cfg mounts cfg = Simple.HookMounts_cfg mounts (simple_of cfg)
  <-> (Layered.Driver cfg <> "device"
       \/ (Layered.Device cfg <> "" /\ Layered.DeviceFSType cfg <> "")).
Proof.
  intros Ec Eo. split; [|now apply HookMounts_cfg_agree].
  unfold Layered.HookMounts_cfg, Simple.HookMounts_cfg, simple_of.
  cbn [Simple.Driver Simple.OverlayLower Simple.OverlayUpper Simple.Device
       Simple.DeviceFSType].
  destruct (String.eqb_spec (Layered.Driver cfg) ExternalRootFSDriverDevice)
    as [Hd|Hd]; [|intros _; now left].
  rewrite Hd, device_is_not_overlay. cbn [andb].
  unfold Layered.externalDevice. rewrite Ec, Eo. cbn [String.eqb negb bind].
  destruct (String.eqb_spec (Layered.Device cfg) "") as [Ed|Ed]; cbn [negb].
  - rewrite String.eqb_refl. intros [= _ Habs].
  - pose proof Ed as Ed'. apply String.eqb_neq in Ed'. rewrite Ed'.
    destruct (String.eqb_spec (Layered.DeviceFSType cfg) "") as [Ef|Ef];
      cbn [negb].
    + rewrite Ef. intros [= Habs].
    + intros _. right. now split.
Qed.

End DeviceFacts.

(** ** The order of the keys of a map *)

Section KeyOrder.

Lemma ascii_compare_lt_trans (a b c : ascii) :
  Ascii.compare a b = Lt -> Ascii.compare b c = Lt -> Ascii.compare a c = Lt.
Proof.
  unfold Ascii.compare. rewrite !N.compare_lt_iff. lia.
Qed.

Lemma string_compare_lt_trans (s1 s2 s3 : string) :
  String.compare s1 s2 = Lt -> String.compare s2 s3 = Lt ->
  String.compare s1 s3 = Lt.
Proof.
  revert s2 s3; induction s1 as [|a s1 IH]; intros [|b s2] [|c s3];
    cbn; try congruence.
  destruct (Ascii.compare a b) eqn:Eab; try discriminate;
    destruct (Ascii.compare b c) eqn:Ebc; try discriminate; intros H12 H23.
  - apply Ascii.compare_eq_iff in Eab, Ebc. subst.
    assert (E : Ascii.compare c c = Eq) by apply N.compare_refl.
    rewrite E. eauto.
  - apply Ascii.compare_eq_iff in Eab. subst. now rewrite Ebc.
  - apply Ascii.compare_eq_iff in Ebc. subst. now rewrite Eab.
  - now rewrite (ascii_compare_lt_trans _ _ _ Eab Ebc).
Qed.

Lemma map_set_Forall (Q : string * string -> Prop) (k v : string)
    (m : json.gomap) :
  Q (k, v) -> Forall Q m -> Forall Q (json.map_set k v m).
Proof.
  intros Hq F; induction F as [|[k' v'] m' Hx F IH]; cbn.
  - auto.
  - destruct (String.compare k k'); auto.
Qed.

Lemma map_set_sorted (k v : string) (m : json.gomap) :
  sorted_keys m -> sorted_keys (json.map_set k v m).
Proof.
  unfold sorted_keys.
  induction 1 as [|[k' v'] m' S IH F]; cbn.
  - repeat constructor.
  - destruct (String.compare k k') eqn:E.
    + apply String.compare_eq_iff in E; subst k'.
      constructor; [exact S | exact F].
    + constructor; [now constructor|].
      constructor; [exact E|].
      eapply Forall_impl; [|exact F].
      intros [k2 v2] H2. unfold key_lt in *; cbn [fst] in *.
      eapply string_compare_lt_trans; eauto.
    + constructor; [exact IH|].
      apply map_set_Forall; [|exact F].
      unfold key_lt; cbn [fst].
      rewrite String.compare_antisym, E. reflexivity.
Qed.

(** Below every key of the map, a key goes to the front. *)
Lemma map_set_front (k v : string) (m : json.gomap) :
  Forall (key_lt (k, v)) m -> json.map_set k v m = (k, v) :: m.
Proof.
  intros F; destruct F as [|[k' v'] m' Hx F]; cbn; [reflexivity|].
  unfold key_lt in Hx; cbn [fst] in Hx. now rewrite Hx.
Qed.

Lemma filter_step {A : Type} (f : A -> bool) (x : A) (l : list A) :
  filter f (x :: l) = if f x then x :: filter f l else filter f l.
Proof. reflexivity. Qed.

Lemma string_compare_refl (k : string) : String.compare k k = Eq.
Proof.
  destruct (String.compare k k) eqn:Ek; [reflexivity| |];
    pose proof (String.compare_antisym k k) as A; rewrite Ek in A;
    discriminate A.
Qed.

(** Setting a key and keeping the keys that satisfy [p] commute. *)
Lemma filter_map_set (p : string -> bool) (k v : string) (m : json.gomap) :
  sorted_keys m ->
  filter (fun kv => p (fst kv)) (json.map_set k v m)
  = if p k then json.map_set k v (filter (fun kv => p (fst kv)) m)
    else filter (fun kv => p (fst kv)) m.
Proof.
  unfold sorted_keys.
  induction 1 as [|[k' v'] m' S IH F]; cbn [json.map_set].
  - cbn. now destruct (p k).
  - destruct (String.compare k k') eqn:E.
    + apply String.compare_eq_iff in E; subst k'.
      rewrite !filter_step; cbn [fst].
      destruct (p k); [|reflexivity].
      cbn [json.map_set]. now rewrite string_compare_refl.
    + rewrite (filter_step _ (k, v)); cbn [fst].
      destruct (p k) eqn:Pk; [|reflexivity].
      symmetry. apply (map_set_front k v).
      assert (Fk : Forall (key_lt (k, v)) ((k', v') :: m')).
      { constructor; [exact E|]. eapply Forall_impl; [|exact F].
        intros [k2 v2] H2. unfold key_lt in *; cbn [fst] in *.
        eapply string_compare_lt_trans; eauto. }
      apply Forall_forall. intros x Hx.
      apply filter_In in Hx as [Hx _].
      rewrite Forall_forall in Fk. now apply Fk.
    + rewrite !filter_step, IH; cbn [fst].
      destruct (p k'), (p k); cbn [json.map_set]; try reflexivity.
      now rewrite E.
Qed.

End KeyOrder.

(** ** The configuration read from the environment *)

Section EnvFacts.

Lemma entry_key_cons (c : ascii) (e : string) :
  Ascii.eqb c "=" = false ->
  entry_key (String c e) = String c (entry_key e).
Proof.
  unfold entry_key; cbn. intros ->. now destruct (cut "=" e) as [[a b]|].
Qed.

(** A prefix without [=] is a prefix of the entry exactly when it is one
    of the entry's key. *)
Lemma HasPrefix_entry_key (p e : string) :
  Count p "=" = 0%nat -> HasPrefix (entry_key e) p = HasPrefix e p.
Proof.
  revert e; induction p as [|a p IH]; intros e Hc.
  - now rewrite !HasPrefix_nil.
  - cbn in Hc. destruct (Ascii.eqb_spec a "=") as [->|Ha]; [discriminate|].
    destruct e as [|c e]; [reflexivity|].
    destruct (Ascii.eqb_spec c "=") as [->|Hce].
    + unfold entry_key; cbn. rewrite HasPrefix_cons.
      destruct (Ascii.eqb_spec "="%char a); [congruence | reflexivity].
    + rewrite entry_key_cons by now apply Ascii.eqb_neq.
      rewrite !HasPrefix_cons, IH; [reflexivity | exact Hc].
Qed.

Lemma prefixed_key (e : string) :
  HasPrefix (entry_key e) ExternalRootFSPrefix
  = HasPrefix e ExternalRootFSPrefix.
Proof. now apply HasPrefix_entry_key. Qed.

Lemma Split_head (s : string) : nth 0 (Split s "=") "" = entry_key s.
Proof.
  rewrite Split_unfold. unfold entry_key.
  now destruct (cut "=" s) as [[a b]|].
Qed.

(** A round of the loop: an entry without the prefix or without [=] is
    skipped, and of any other entry the key is set to what stands between
    the first [=] and the second. *)
Lemma configMap_step_spec (m : json.gomap) (e : string) :
  configMap_step m e
  = if negb (HasPrefix e ExternalRootFSPrefix) then m
    else match cut "=" e with
         | None => m
         | Some (k, rest) => json.map_set k (entry_key rest) m
         end.
Proof.
  unfold configMap_step. destruct (HasPrefix e ExternalRootFSPrefix); cbn [negb];
    [|reflexivity].
  rewrite SplitN_all, Split_unfold.
  destruct (cut "=" e) as [[k rest]|]; [|reflexivity].
  cbn [nth]. rewrite Split_head.
  pose proof (Split_nonempty "=" rest) as Hne.
  destruct (Split rest "=") as [|x xs]; [contradiction | reflexivity].
Qed.

Lemma configMap_step_key (m : json.gomap) (e : string) :
  configMap_step m e = m
  \/ exists v : string, configMap_step m e = json.map_set (entry_key e) v m.
Proof.
  rewrite configMap_step_spec. unfold entry_key.
  destruct (negb _); [now left|].
  destruct (cut "=" e) as [[k rest]|]; [right; eauto | now left].
Qed.

Lemma configMap_step_sorted (m : json.gomap) (e : string) :
  sorted_keys m -> sorted_keys (configMap_step m e).
Proof.
  intros S. destruct (configMap_step_key m e) as [->|[v ->]];
    [exact S | now apply map_set_sorted].
Qed.

Lemma configMap_fold_sorted (envs : list string) (m : json.gomap) :
  sorted_keys m -> sorted_keys (fold_left configMap_step envs m).
Proof.
  revert m; induction envs as [|e envs IH]; intros m S; cbn;
    [exact S | apply IH, configMap_step_sorted, S].
Qed.

(** Entries without the prefix leave the map as it is. *)
Lemma configMap_fold_filter (envs : list string) (m : json.gomap) :
  fold_left configMap_step envs m
  = fold_left configMap_step
      (filter (fun e => HasPrefix e ExternalRootFSPrefix) envs) m.
Proof.
  revert m; induction envs as [|e envs IH]; intros m; cbn [filter fold_left];
    [reflexivity|].
  destruct (HasPrefix e ExternalRootFSPrefix) eqn:E; cbn [fold_left].
  - apply IH.
  - unfold configMap_step at 2. rewrite E. cbn [negb]. apply IH.
Qed.

Lemma Unmarshal_skips (m : json.gomap) (acc : Layered.ExternalRootFSConfig) :
  json.Unmarshal_struct _ Layered.fields (json.Marshal_map m) acc
  = json.Unmarshal_struct _ Layered.fields
      (json.Marshal_map (decoded_members m)) acc.
Proof.
  unfold json.Unmarshal_struct, json.Marshal_map, decoded_members.
  revert acc; induction m as [|[k v] m IH]; intros acc; [reflexivity|].
  rewrite filter_step. cbn [fst].
  destruct (decoded_key k) eqn:Dk; unfold decoded_key in Dk;
    cbn [map fold_left fst snd];
    destruct (json.fieldOf _ Layered.fields (json.transported k)) as [f|];
    try discriminate Dk; apply IH.
Qed.

Lemma decodeConfig_members (m : json.gomap) :
  Layered.decodeConfig m = Layered.decodeConfig (decoded_members m).
Proof. apply Unmarshal_skips. Qed.

Lemma decoded_members_step (m m' : json.gomap) (e : string) :
  sorted_keys m -> sorted_keys m' ->
  decoded_members m = decoded_members m' ->
  decoded_members (configMap_step m e) = decoded_members (configMap_step m' e).
Proof.
  intros S S' E. rewrite !configMap_step_spec.
  destruct (negb _); [exact E|].
  destruct (cut "=" e) as [[k rest]|]; [|exact E].
  unfold decoded_members in *. rewrite !filter_map_set by assumption.
  now rewrite E.
Qed.

Lemma decoded_members_fold (envs : list string) (m m' : json.gomap) :
  sorted_keys m -> sorted_keys m' ->
  decoded_members m = decoded_members m' ->
  decoded_members (fold_left configMap_step envs m)
  = decoded_members (fold_left configMap_step envs m').
Proof.
  revert m m'; induction envs as [|e envs IH]; intros m m' S S' E; cbn;
    [exact E|].
  apply IH; try now apply configMap_step_sorted.
  now apply decoded_members_step.
Qed.

(** An entry whose key the decoder assigns to no field changes nothing. *)
Lemma undecoded_entry_ignored (env1 env2 : list string) (e : string) :
  decoded_key (entry_key e) = false ->
  Layered.config_of_env (env1 ++ e :: env2)%list
  = Layered.config_of_env (env1 ++ env2)%list.
Proof.
  intros Hk. unfold Layered.config_of_env, configMap_of.
  rewrite !fold_left_app. cbn [fold_left].
  set (m1 := fold_left configMap_step env1 []).
  assert (S1 : sorted_keys m1)
    by (apply configMap_fold_sorted; constructor).
  rewrite decodeConfig_members.
  rewrite (decodeConfig_members (fold_left configMap_step env2 m1)).
  f_equal. apply decoded_members_fold;
    [now apply configMap_step_sorted | exact S1 |].
  destruct (configMap_step_key m1 e) as [->|[v ->]]; [reflexivity|].
  unfold decoded_members. rewrite filter_map_set by exact S1.
  now rewrite Hk.
Qed.

Lemma unprefixed_entries_ignored (env1 env2 : list string) :
  filter (fun e => HasPrefix (entry_key e) ExternalRootFSPrefix) env1
  = filter (fun e => HasPrefix (entry_key e) ExternalRootFSPrefix) env2 ->
  Layered.config_of_env env1 = Layered.config_of_env env2.
Proof.
  intros E. unfold Layered.config_of_env, configMap_of.
  rewrite (configMap_fold_filter env1), (configMap_fold_filter env2).
  rewrite (filter_ext _ _ prefixed_key env1) in E.
  rewrite (filter_ext _ _ prefixed_key env2) in E.
  now rewrite E.
Qed.

End EnvFacts.

Section DecoderFacts.

(** Every tag of the struct is its own folded name. *)
Lemma tags_folded :
  Forall (fun tag => json.foldName tag = tag) table_keys.
Proof. repeat constructor. Qed.

(** A key is decoded exactly when its folded name is a tag. *)
Lemma decoded_key_spec (key : string) :
  decoded_key key = true
  <-> In (json.foldName (json.transported key)) table_keys.
Proof.
  unfold decoded_key, json.fieldOf, json.byExactName, json.byFoldedName.
  generalize (json.transported key); intros k.
  pose proof tags_folded as T. rewrite Forall_forall in T.
  split.
  - destruct (find (fun f => fst f =? k) Layered.fields) as [f|] eqn:E.
    + intros _. apply find_some in E as [Hin Hk].
      apply String.eqb_eq in Hk. rewrite <- Hk.
      assert (Ht : In (fst f) table_keys) by now apply in_map.
      now rewrite (T _ Ht).
    + destruct (find (fun f => json.foldName (fst f) =? json.foldName k)
                  Layered.fields) as [f|] eqn:E';
        [|intros D; discriminate D].
      intros _. apply find_some in E' as [Hin Hk].
      apply String.eqb_eq in Hk. rewrite <- Hk.
      assert (Ht : In (fst f) table_keys) by now apply in_map.
      now rewrite (T _ Ht).
  - intros Hin. destruct (find (fun f => fst f =? k) Layered.fields);
      [reflexivity|].
    destruct (find (fun f => json.foldName (fst f) =? json.foldName k)
                Layered.fields) as [f|] eqn:E'; [reflexivity|].
    apply in_map_iff in Hin as (f & Hf & Hin).
    pose proof (find_none _ _ E' f Hin) as N. cbn beta in N.
    assert (Ht : In (fst f) table_keys) by now apply in_map.
    rewrite (T _ Ht), Hf, String.eqb_refl in N. discriminate N.
Qed.

Lemma entry_without_equals_discarded (m : json.gomap) (e : string) :
  Count e "=" = 0%nat -> configMap_step m e = m.
Proof.
  intros Hc. rewrite configMap_step_spec.
  apply cut_None in Hc. rewrite Hc. now destruct (negb _).
Qed.

(** The struct of the second listing is decoded like the first, less the
    two fields it does not have. *)
Lemma simple_Unmarshal (o : json.object) (acc : Layered.ExternalRootFSConfig) :
  json.Unmarshal_struct _ Simple.fields o (simple_of acc)
  = simple_of (json.Unmarshal_struct _ Layered.fields o acc).
Proof.
  unfold json.Unmarshal_struct.
  revert acc; induction o as [|[k v] o IH]; intros acc; cbn [fold_left];
    [reflexivity|].
  rewrite <- IH. f_equal.
  unfold json.fieldOf, json.byExactName, json.byFoldedName,
    Layered.fields, Simple.fields.
  cbn [find fst snd].
  repeat (match goal with
          | |- context [String.eqb ?a ?b] =>
              destruct (String.eqb_spec a b);
              [ try (subst k);
                try (exfalso;
                     match goal with
                     | Hx : _ = _ |- _ => vm_compute in Hx; discriminate Hx
                     end) | ]
          end; cbv beta iota);
    reflexivity.
Qed.

Lemma simple_config_of_env (envs : list string) :
  Simple.config_of_env envs = simple_of (Layered.config_of_env envs).
Proof. apply (simple_Unmarshal _ Layered.zero). Qed.

(** On one specification the two listings of [HookMounts] run alike,
    under the condition above on the configuration read from it. *)
Lemma HookMounts_listings_agree `{Externals} {W : Type} (h : handler W)
    (w : W) (mounts : list Mount) (configPath : string) (spec : Spec) :
  fst (h _ (ReadSpec configPath) w) = inr spec ->
  Layered.DeviceConfig (Layered.config_of_env (Env (Process_ spec))) = "" ->
  Layered.DeviceMountOpts (Layered.config_of_env (Env (Process_ spec))) = "" ->
  (Layered.Driver (Layered.config_of_env (Env (Process_ spec))) <> "device"
   \/ (Layered.Device (Layered.config_of_env (Env (Process_ spec))) <> ""
       /\ Layered.DeviceFSType (Layered.config_of_env (Env (Process_ spec)))
          <> "")) ->
  run h (Layered.HookMounts mounts configPath) w
  = run h (Simple.HookMounts mounts configPath) w.
Proof.
  intros E Ec Eo Hc.
  rewrite (run_HookMounts h mounts configPath w spec E).
  rewrite (run_Simple_HookMounts h mounts configPath w spec E).
  rewrite simple_config_of_env.
  now rewrite (HookMounts_cfg_agree mounts _ Ec Eo Hc).
Qed.

End DecoderFacts.

(** C6.  The loop splits a kept entry at every [=], not at the first
    only.  Of an entry [KEY=v=w] the map holds [v], the text between the
    first [=] and the second, where the whole remainder [v=w] is what a
    split into two pieces gives. *)
Theorem value_cut_at_second_equals
    (m : json.gomap) (k v w : string) :
  HasPrefix k ExternalRootFSPrefix = true ->
  Count k "=" = 0%nat ->
  Count v "=" = 0%nat ->
  configMap_step m (k ++ "=" ++ v ++ "=" ++ w) = json.map_set k v m
  /\ v <> v ++ "=" ++ w
  /\ SplitN (k ++ "=" ++ v ++ "=" ++ w) "=" 2 = [k; v ++ "=" ++ w].
Proof.
  intros Hp Hk Hv. repeat split.
  - rewrite configMap_step_spec.
    rewrite (HasPrefix_app_l _ _ _ Hp). cbn [negb].
    change (k ++ "=" ++ v ++ "=" ++ w) with (k ++ String "=" (v ++ "=" ++ w)).
    rewrite (cut_app "=" k _ Hk). unfold entry_key.
    change (v ++ "=" ++ w) with (v ++ String "=" w).
    now rewrite (cut_app "=" v _ Hv).
  - intros E. apply (f_equal String.length) in E.
    rewrite length_append in E. cbn in E. lia.
  - rewrite SplitN_2.
    change (k ++ "=" ++ v ++ "=" ++ w) with (k ++ String "=" (v ++ "=" ++ w)).
    now rewrite (cut_app "=" k _ Hk).
Qed.

(** The failing entry: the mount options lose [=ordered]. *)
Lemma value_cut_at_second_equals_witness :
  configMap_of ["EXTERNAL_ROOTFS_DEVICE_MOUNT_OPTS=rw,data=ordered"]
  = [("EXTERNAL_ROOTFS_DEVICE_MOUNT_OPTS", "rw,data")]
  /\ Layered.DeviceMountOpts
       (Layered.config_of_env
          ["EXTERNAL_ROOTFS_DEVICE_MOUNT_OPTS=rw,data=ordered"])
     = "rw,data"
  /\ SplitN "EXTERNAL_ROOTFS_DEVICE_MOUNT_OPTS=rw,data=ordered" "=" 2
     = ["EXTERNAL_ROOTFS_DEVICE_MOUNT_OPTS"; "rw,data=ordered"]
  /\ configMap_of ["EXTERNAL_ROOTFS_DRIVER"] = [].
Proof.
  destruct (value_cut_at_second_equals []
              "EXTERNAL_ROOTFS_DEVICE_MOUNT_OPTS" "rw,data" "ordered"
              eq_refl eq_refl eq_refl) as (Hm & _ & Hs).
  split; [exact Hm|]. split; [|split; [exact Hs | reflexivity]].
  unfold Layered.config_of_env, configMap_of. cbn [fold_left].
  change (configMap_step []
            "EXTERNAL_ROOTFS_DEVICE_MOUNT_OPTS=rw,data=ordered")
    with (configMap_step []
            ("EXTERNAL_ROOTFS_DEVICE_MOUNT_OPTS" ++ "=" ++ "rw,data"
               ++ "=" ++ "ordered")).
  rewrite Hm. reflexivity.
Defined.

(** C8, as the code has it.  Two environments with the same entries
    under the prefix [EXTERNAL_ROOTFS_], in the same order, give the same
    configuration, whatever their other entries.  An entry under the
    prefix changes nothing when its key, folded as the decoder folds it,
    is no key of the table; such keys are exactly the ones the decoder
    assigns to no field.  And reading the configuration fails only when
    reading the specification does. *)
Theorem prefix_isolation_and_undecoded_keys :
  (forall env1 env2 : list string,
      filter (fun e => HasPrefix (entry_key e) ExternalRootFSPrefix) env1
      = filter (fun e => HasPrefix (entry_key e) ExternalRootFSPrefix) env2 ->
      Layered.config_of_env env1 = Layered.config_of_env env2)
  /\ (forall (env1 env2 : list string) (e : string),
         ~ In (json.foldName (json.transported (entry_key e))) table_keys ->
         Layered.config_of_env (env1 ++ e :: env2)%list
         = Layered.config_of_env (env1 ++ env2)%list)
  /\ (forall key : string,
         decoded_key key = true
         <-> In (json.foldName (json.transported key)) table_keys)
  /\ (forall (W : Type) (h : handler W) (w : W) (configFile : string)
             (spec : Spec),
         fst (h _ (ReadSpec configFile) w) = inr spec ->
         fst (run h (Layered.ReadExternalRootFSConfigFromENV configFile) w)
         = inr (Layered.config_of_env (Env (Process_ spec)))).
Proof.
  split; [exact unprefixed_entries_ignored|].
  split; [|split; [exact decoded_key_spec|]].
  - intros env1 env2 e Hn. apply undecoded_entry_ignored.
    destruct (decoded_key (entry_key e)) eqn:D; [|reflexivity].
    now apply decoded_key_spec in D.
  - intros W h w configFile spec E.
    unfold Layered.ReadExternalRootFSConfigFromENV, trigger. cbn [bind run].
    destruct (h _ (ReadSpec configFile) w) as [r w'].
    cbn [fst] in E; subst r. reflexivity.
Qed.

(** The key [EXTERNAL_ROOTFS_driver] is no key of the table, and the
    decoder assigns it to the driver all the same. *)
Lemma lower_case_key_is_decoded :
  HasPrefix (entry_key "EXTERNAL_ROOTFS_driver=device") ExternalRootFSPrefix
  = true
  /\ (In (entry_key "EXTERNAL_ROOTFS_driver=device") table_keys -> False)
  /\ Layered.Driver (Layered.config_of_env ["EXTERNAL_ROOTFS_driver=device"])
     = "device"
  /\ Layered.Driver (Layered.config_of_env []) = ""
  /\ Layered.config_of_env ["EXTERNAL_ROOTFS_driver=device"]
     <> Layered.config_of_env [].
Proof.
  repeat split; try (vm_compute; reflexivity).
  - cbn. intros H. repeat (destruct H as [H|H]; [discriminate H|]). exact H.
  - intros E. vm_compute in E. discriminate E.
Qed.

Lemma prefix_isolation_witness :
  Layered.config_of_env
    ["PATH=/bin"; "EXTERNAL_ROOTFS_DRIVER=overlay"; "EXTERNAL_ROOTFS_FOO=bar"]
  = Layered.config_of_env ["EXTERNAL_ROOTFS_DRIVER=overlay"; "HOME=/root"].
Proof.
  refine (eq_trans
            (proj1 (proj2 prefix_isolation_and_undecoded_keys)
               ["PATH=/bin"; "EXTERNAL_ROOTFS_DRIVER=overlay"] []
               "EXTERNAL_ROOTFS_FOO=bar" _)
            (proj1 prefix_isolation_and_undecoded_keys _ _ _)).
  - cbn. intros H. repeat (destruct H as [H|H]; [discriminate H|]). exact H.
  - reflexivity.
Defined.

(** ** The examples: the statements above at concrete inputs *)

Lemma MemFS_WriteFile_truncates : WriteFile_truncates MemFS.handle.
Proof.
  intros name data perm w _. cbn. now rewrite String.eqb_refl.
Qed.

(** A snapshot of one mount over a stale file. *)
Lemma WriteMounts_contract_witness :
  calls MemFS.handle
    (WriteMounts (H := Demo.externals) "/run/c1" [Demo.overlay_mount])
    (Demo.world_of [])
  = [ CallWriteFile "/run/c1/mounts.json"
        "overlay overlay upperdir=/a,lowerdir=/b,workdir=/c" perm_0600 ]
  /\ fst (MemFS.handle _ (ReadFile "/run/c1/mounts.json")
            (snd (run MemFS.handle
                    (WriteMounts (H := Demo.externals) "/run/c1"
                       [Demo.overlay_mount])
                    (Demo.world_of []))))
     = inr "overlay overlay upperdir=/a,lowerdir=/b,workdir=/c".
Proof.
  destruct (proj2 (proj2 (WriteMounts_contract (H := Demo.externals)))
              MemFS.World MemFS.handle (Demo.world_of []) "/run/c1"
              [Demo.overlay_mount]
              "overlay overlay upperdir=/a,lowerdir=/b,workdir=/c"
              ltac:(discriminate) eq_refl)
    as (Hc & _ & _ & Ht).
  split.
  - exact Hc.
  - apply Ht; [exact MemFS_WriteFile_truncates | reflexivity].
Defined.

(** The descriptor file gives the device, the configuration the type. *)
Lemma externalDevice_layering_witness :
  fst (run MemFS.handle
         (Layered.externalDevice (H := Demo.externals)
            (Demo.device_cfg "" "ext4" "/etc/rootfs.json" ""))
         (Demo.world_of []))
  = ([ {| Type' := "ext4"; Source := "/dev/a"; Options := ["rw"] |} ], None).
Proof.
  refine (proj2 (externalDevice_layering (H := Demo.externals) MemFS.handle
                   (Demo.world_of [])
                   (Demo.device_cfg "" "ext4" "/etc/rootfs.json" "")
                   (Some {| ExtDevice.Device := "/dev/a";
                            ExtDevice.FilesystemType := "" |}) _)
            eq_refl eq_refl eq_refl eq_refl).
  right. split; [discriminate|].
  exists "/dev/a ", {| ExtDevice.Device := "/dev/a";
                       ExtDevice.FilesystemType := "" |}.
  repeat split.
Defined.

(** The driver [device] alone in the environment. *)
Lemma device_driver_without_device_witness :
  fst (run MemFS.handle
         (Layered.HookMounts (H := Demo.externals) [Demo.bind_mount]
            "/run/c1/config.json")
         (Demo.world_of ["PATH=/bin"; "EXTERNAL_ROOTFS_DRIVER=device"]))
  = ([], Some MissingDeviceError).
Proof.
  rewrite (run_HookMounts MemFS.handle (H := Demo.externals)
             [Demo.bind_mount] "/run/c1/config.json"
             (Demo.world_of ["PATH=/bin"; "EXTERNAL_ROOTFS_DRIVER=device"])
             (Demo.spec_of ["PATH=/bin"; "EXTERNAL_ROOTFS_DRIVER=device"])
             eq_refl).
  refine (proj1 (device_driver_without_device (H := Demo.externals)
                   MemFS.handle _ [Demo.bind_mount]
                   (Layered.config_of_env
                      ["PATH=/bin"; "EXTERNAL_ROOTFS_DRIVER=device"])
                   None eq_refl _ eq_refl I)).
  left. split; reflexivity.
Defined.

(** The scenario of the overlay driver with an upper directory. *)
Lemma overlay_override_mount_witness :
  run MemFS.handle
    (Layered.HookMounts (H := Demo.externals) [Demo.overlay_mount]
       "/run/c1/config.json")
    (Demo.world_of ["EXTERNAL_ROOTFS_DRIVER=overlay";
                    "EXTERNAL_ROOTFS_OVERLAY_UPPER_PATH=/x"])
  = ([ {| Type' := "overlay"; Source := "overlay";
          Options := ["upperdir=/x"; "lowerdir=/b"; "workdir=/c";
                      "index=off"] |} ],
     None,
     {| MemFS.specs := MemFS.specs (Demo.world_of
                         ["EXTERNAL_ROOTFS_DRIVER=overlay";
                          "EXTERNAL_ROOTFS_OVERLAY_UPPER_PATH=/x"]);
        MemFS.files := MemFS.files (Demo.world_of []);
        MemFS.dirs := ["/x"] |})
  /\ fst (run MemFS.handle
            (Layered.HookMounts_cfg (H := Demo.externals)
               [Demo.overlay_mount] (Demo.overlay_cfg "" "/x"))
            (Demo.world_of []))
     = ([ {| Type' := "overlay"; Source := "overlay";
             Options := ["upperdir=/x"; "lowerdir=/b"; "workdir=/c";
                         "index=off"] |} ],
        None).
Proof.
  split; [reflexivity|].
  exact (overlay_override_mount (H := Demo.externals) MemFS.handle
           (Demo.world_of []) (Demo.overlay_cfg "" "/x") Demo.overlay_mount
           eq_refl eq_refl (fun _ => eq_refl)).
Defined.

(** Two mounts under the overlay driver, and one bind mount with no
    driver. *)
Lemma HookMounts_branch_selection_witness :
  Layered.HookMounts_cfg (H := Demo.externals)
    [Demo.overlay_mount; Demo.bind_mount] (Demo.overlay_cfg "" "/x")
  = Ret ([Demo.overlay_mount; Demo.bind_mount], None)
  /\ Layered.HookMounts_cfg (H := Demo.externals)
       [Demo.bind_mount] Layered.zero
     = Ret ([Demo.bind_mount], None).
Proof.
  split.
  - exact (proj2 (proj2 (proj2
             (HookMounts_branch_selection (H := Demo.externals)
                [Demo.overlay_mount; Demo.bind_mount]
                (Demo.overlay_cfg "" "/x"))))
             Demo.overlay_mount Demo.bind_mount eq_refl).
  - refine (proj1 (proj2 (proj2
              (HookMounts_branch_selection (H := Demo.externals)
                 [Demo.bind_mount] Layered.zero))) _ _).
    + intros [D _]. discriminate D.
    + discriminate.
Defined.

(** A device and its type, both inline: the two listings agree. *)
Lemma layered_agrees_with_simple_witness :
  Layered.HookMounts_cfg (H := Demo.externals) [Demo.overlay_mount]
    (Demo.device_cfg "/dev/sdb" "ext4" "" "")
  = Simple.HookMounts_cfg [Demo.overlay_mount]
      (simple_of (Demo.device_cfg "/dev/sdb" "ext4" "" "")).
Proof.
  apply (proj2 (layered_agrees_with_simple (H := Demo.externals)
                  [Demo.overlay_mount]
                  (Demo.device_cfg "/dev/sdb" "ext4" "" "")
                  eq_refl eq_refl)).
  right. split; discriminate.
Defined.

(** With no descriptor file and no mount options the two listings still
    differ: without a device the first fails and the second returns the
    mounts of the caller, and without a type the first mounts [xfs]. *)
Lemma layered_differs_from_simple :
  Layered.DeviceConfig (Demo.device_cfg "" "" "" "") = ""
  /\ Layered.DeviceMountOpts (Demo.device_cfg "" "" "" "") = ""
  /\ Layered.HookMounts_cfg (H := Demo.externals) [Demo.bind_mount]
       (Demo.device_cfg "" "" "" "")
     = Ret ([], Some MissingDeviceError)
  /\ Simple.HookMounts_cfg [Demo.bind_mount]
       (simple_of (Demo.device_cfg "" "" "" ""))
     = Ret ([Demo.bind_mount], None)
  /\ Layered.HookMounts_cfg (H := Demo.externals) [Demo.bind_mount]
       (Demo.device_cfg "/dev/sdb" "" "" "")
     = Ret ([ {| Type' := "xfs"; Source := "/dev/sdb"; Options := ["rw"] |} ],
            None)
  /\ Simple.HookMounts_cfg [Demo.bind_mount]
       (simple_of (Demo.device_cfg "/dev/sdb" "" "" ""))
     = Ret ([ {| Type' := ""; Source := "/dev/sdb"; Options := ["rw"] |} ],
            None)
  /\ Layered.HookMounts_cfg (H := Demo.externals) [Demo.bind_mount]
       (Demo.device_cfg "" "" "" "")
     <> Simple.HookMounts_cfg [Demo.bind_mount]
          (simple_of (Demo.device_cfg "" "" "" "")).
Proof.
  repeat split. intros E. discriminate E.
Qed.

(** ** Further properties of the overlay option parser *)

Section ParseMore.

Lemma step_unrelated (acc : string * string * string) (o : string) :
  unrelated o = true -> ParseOverlayOption_step acc o = acc.
Proof.
  intros U. apply unrelated_spec in U as (Hu & Hl & Hw).
  destruct acc as [[u l] w]. unfold ParseOverlayOption_step.
  now rewrite Hu, Hl, Hw.
Qed.

Lemma upper_option (x : string) : HasPrefix ("upperdir=" ++ x) "upperdir" = true.
Proof. apply (HasPrefix_weaken _ "upperdir" "="), HasPrefix_app. Qed.

Lemma lower_option (x : string) : HasPrefix ("lowerdir=" ++ x) "lowerdir" = true.
Proof. apply (HasPrefix_weaken _ "lowerdir" "="), HasPrefix_app. Qed.

Lemma work_option (x : string) : HasPrefix ("workdir=" ++ x) "workdir" = true.
Proof. apply (HasPrefix_weaken _ "workdir" "="), HasPrefix_app. Qed.

Lemma parse_built (u l w : string) :
  ParseOverlayOption (built_overlay u l w) = (u, l, w).
Proof.
  unfold ParseOverlayOption, built_overlay. cbn [Options fold_left].
  rewrite (step_upper _ _ _ _ (upper_option u)), TrimPrefix_app.
  rewrite (step_lower _ _ _ _ (lower_option l)), TrimPrefix_app.
  rewrite (step_work _ _ _ _ (work_option w)), TrimPrefix_app.
  reflexivity.
Qed.

(** What the overlay branch returns in a world, whatever [os.MkdirAll]
    answers. *)
Lemma run_overlayOverride {W : Type} (h : handler W) (w : W)
    (lower upper : string) (m : Mount) :
  let parsed := ParseOverlayOption m in
  let built :=
    built_overlay (if upper =? "" then upper_of parsed else upper)
      (if lower =? "" then lower_of parsed else lower) (work_of parsed) in
  run h (overlayOverride lower upper m) w
  = if upper =? "" then (([built], None), w)
    else match fst (h _ (MkdirAll upper perm_0777) w) with
         | Some e => (([], Some e), snd (h _ (MkdirAll upper perm_0777) w))
         | None => (([built], None), snd (h _ (MkdirAll upper perm_0777) w))
         end.
Proof.
  intros parsed built. subst parsed built. unfold overlayOverride, built_overlay.
  destruct (ParseOverlayOption m) as [[u l] w0].
  unfold upper_of, lower_of, work_of, Sprintf_s; cbn [fst snd].
  destruct (upper =? ""), (lower =? ""); cbn [negb bind run];
    try reflexivity;
    unfold trigger; cbn [bind run];
    destruct (h _ (MkdirAll upper perm_0777) w) as [[e|] w']; reflexivity.
Qed.

Lemma calls_overlayOverride {W : Type} (h : handler W) (w : W)
    (lower upper : string) (m : Mount) :
  calls h (overlayOverride lower upper m) w
  = if upper =? "" then [] else [CallMkdirAll upper perm_0777].
Proof.
  unfold overlayOverride.
  destruct (ParseOverlayOption m) as [[u l] w0].
  destruct (upper =? ""); cbn [negb bind calls].
  - reflexivity.
  - unfold trigger; cbn [bind calls].
    destruct (h _ (MkdirAll upper perm_0777) w) as [[e|] w']; reflexivity.
Qed.

End ParseMore.

(** X1.  Parsing the mount the overlay branch builds gives back the three
    directories it was built from, whatever they are: the options written
    with [Sprintf] are read back by [TrimPrefix] unchanged, and [index=off]
    is no directory option. *)
Theorem ParseOverlayOption_reads_back_built_mount (u l w : string) :
  ParseOverlayOption
    {| Type' := "overlay"; Source := "overlay";
       Options := [ Sprintf_s "upperdir=" u; Sprintf_s "lowerdir=" l;
                    Sprintf_s "workdir=" w; "index=off" ] |}
  = (u, l, w)
  /\ unrelated "index=off" = true.
Proof.
  split; [|reflexivity].
  change (ParseOverlayOption (built_overlay u l w) = (u, l, w)).
  unfold ParseOverlayOption, built_overlay. cbn [Options fold_left].
  rewrite (step_upper _ _ _ _ (upper_option u)), TrimPrefix_app.
  rewrite (step_lower _ _ _ _ (lower_option l)), TrimPrefix_app.
  rewrite (step_work _ _ _ _ (work_option w)), TrimPrefix_app.
  reflexivity.
Qed.

(** X2.  The options of two lists one after the other: each directory is
    the one the second list gives when the second list has an option with
    its prefix, and the one the first list gives otherwise. *)
Theorem ParseOverlayOption_app (ty src : string) (o1 o2 : list string) :
  let parse := fun opts =>
    ParseOverlayOption {| Type' := ty; Source := src; Options := opts |} in
  upper_of (parse (o1 ++ o2)%list)
  = (if existsb (fun o => HasPrefix o "upperdir") o2
     then upper_of (parse o2) else upper_of (parse o1))
  /\ lower_of (parse (o1 ++ o2)%list)
     = (if existsb (fun o => HasPrefix o "lowerdir") o2
        then lower_of (parse o2) else lower_of (parse o1))
  /\ work_of (parse (o1 ++ o2)%list)
     = (if existsb (fun o => HasPrefix o "workdir") o2
        then work_of (parse o2) else work_of (parse o1)).
Proof.
  intros parse. subst parse. cbv beta.
  assert (N : forall (p : string -> bool) (l : list string),
             existsb p l = false -> Forall (fun o => p o = false) l).
  { intros p l E. apply Forall_forall. intros o Ho.
    destruct (p o) eqn:Po; [|reflexivity].
    assert (existsb p l = true) by (apply existsb_exists; eauto). congruence. }
  repeat split.
  - destruct (existsb (fun o => HasPrefix o "upperdir") o2) eqn:E.
    + apply existsb_exists in E as (x & Hx & Px).
      destruct (split_at_last (fun o => HasPrefix o "upperdir") o2 x Hx Px)
        as (pre & o & post & -> & Po & F).
      rewrite (last_upper _ (o1 ++ pre) post o); auto.
      * now rewrite (last_upper _ pre post o).
      * cbn [Options]. now rewrite <- app_assoc.
    + unfold ParseOverlayOption; cbn [Options]. rewrite fold_left_app.
      apply fold_keeps_upper, (N _ _ E).
  - destruct (existsb (fun o => HasPrefix o "lowerdir") o2) eqn:E.
    + apply existsb_exists in E as (x & Hx & Px).
      destruct (split_at_last (fun o => HasPrefix o "lowerdir") o2 x Hx Px)
        as (pre & o & post & -> & Po & F).
      rewrite (last_lower _ (o1 ++ pre) post o); auto.
      * now rewrite (last_lower _ pre post o).
      * cbn [Options]. now rewrite <- app_assoc.
    + unfold ParseOverlayOption; cbn [Options]. rewrite fold_left_app.
      apply fold_keeps_lower, (N _ _ E).
  - destruct (existsb (fun o => HasPrefix o "workdir") o2) eqn:E.
    + apply existsb_exists in E as (x & Hx & Px).
      destruct (split_at_last (fun o => HasPrefix o "workdir") o2 x Hx Px)
        as (pre & o & post & -> & Po & F).
      rewrite (last_work _ (o1 ++ pre) post o); auto.
      * now rewrite (last_work _ pre post o).
      * cbn [Options]. now rewrite <- app_assoc.
    + unfold ParseOverlayOption; cbn [Options]. rewrite fold_left_app.
      apply fold_keeps_work, (N _ _ E).
Qed.

(** X3.  Options that start with none of the three words can be taken out
    of the list, anywhere, without a change of the result. *)
Theorem ParseOverlayOption_drops_unrelated (m : Mount) :
  ParseOverlayOption
    {| Type' := Type' m; Source := Source m;
       Options := filter (fun o => negb (unrelated o)) (Options m) |}
  = ParseOverlayOption m.
Proof.
  unfold ParseOverlayOption. cbn [Options].
  generalize ("", "", "") as acc.
  induction (Options m) as [|o opts IH]; intros acc; cbn [filter fold_left].
  - reflexivity.
  - destruct (unrelated o) eqn:U; cbn [negb fold_left].
    + rewrite (step_unrelated acc o U). apply IH.
    + apply IH.
Qed.

(** ** Errors and calls of [HookMounts] *)

Section Effects.

Context `{Externals} {W : Type} (h : handler W).

Lemma calls_externalDevice (w : W) (c : Layered.ExternalRootFSConfig) :
  calls h (Layered.externalDevice c) w
  = if Layered.DeviceConfig c =? "" then []
    else [CallReadFile (Layered.DeviceConfig c)].
Proof.
  unfold Layered.externalDevice.
  destruct (Layered.DeviceConfig c =? ""); cbn [negb bind calls].
  - now destruct (_ =? "").
  - unfold trigger; cbn [bind calls].
    destruct (h _ (ReadFile (Layered.DeviceConfig c)) w) as [[e|b] w'];
      cbn [bind calls]; [reflexivity|].
    destruct (json_Unmarshal_ExtDevice b) as [e|ed]; cbn [bind calls];
      [reflexivity|].
    now destruct (_ =? "").
Qed.

Lemma calls_HookMounts_cfg (w : W) (mounts : list Mount)
    (cfg : Layered.ExternalRootFSConfig) :
  calls h (Layered.HookMounts_cfg mounts cfg) w = expected_calls mounts cfg.
Proof.
  unfold Layered.HookMounts_cfg, expected_calls,
    ExternalRootFSDriverOverlay, ExternalRootFSDriverDevice.
  destruct ((Layered.Driver cfg =? "overlay") && single_overlay mounts).
  - apply calls_overlayOverride.
  - destruct (Layered.Driver cfg =? "device");
      [apply calls_externalDevice | reflexivity].
Qed.

(** The device branch fails with an empty list or returns one mount whose
    type, source and option list are not empty. *)
Lemma externalDevice_result (w : W) (c : Layered.ExternalRootFSConfig) :
  (exists e : error, fst (run h (Layered.externalDevice c) w) = ([], Some e))
  \/ (exists m : Mount,
         fst (run h (Layered.externalDevice c) w) = ([m], None)
         /\ Type' m <> "" /\ Source m <> ""
         /\ Options m = resolved_options c).
Proof.
  assert (K : forall fsType device : string,
             fsType <> "" ->
             let fsType' := if negb (Layered.DeviceFSType c =? "")
                            then Layered.DeviceFSType c else fsType in
             let device' := if negb (Layered.Device c =? "")
                            then Layered.Device c else device in
             (device' =? "") = true
             \/ ((device' =? "") = false /\ fsType' <> "" /\ device' <> "")).
  { intros fsType device Hf fsType' device'.
    destruct (String.eqb_spec device' ""); [now left | right].
    repeat split; [|assumption]. subst fsType'.
    destruct (String.eqb_spec (Layered.DeviceFSType c) ""); cbn [negb];
      assumption. }
  assert (X : "xfs" <> "") by discriminate.
  unfold Layered.externalDevice, resolved_options.
  destruct (Layered.DeviceConfig c =? ""); cbn [negb bind run].
  - destruct (K "xfs" "" X) as [E|(E & Hf & Hd)]; cbv zeta in *; rewrite E.
    + left; eexists; reflexivity.
    + right. eexists. split; [reflexivity|]. cbn [Type' Source Options].
      repeat split; try assumption.
      now destruct (Layered.DeviceMountOpts c =? "").
  - unfold trigger; cbn [bind run].
    destruct (h _ (ReadFile (Layered.DeviceConfig c)) w) as [[e|b] w'];
      cbn [bind run]; [left; eexists; reflexivity|].
    destruct (json_Unmarshal_ExtDevice b) as [e|ed]; cbn [bind run];
      [left; eexists; reflexivity|].
    assert (Y : (if negb (ExtDevice.FilesystemType ed =? "")
                 then ExtDevice.FilesystemType ed else "xfs") <> "").
    { destruct (String.eqb_spec (ExtDevice.FilesystemType ed) "");
        cbn [negb]; assumption. }
    destruct (K _ (ExtDevice.Device ed) Y) as [E|(E & Hf & Hd)];
      cbv zeta in *; rewrite E.
    + left; eexists; reflexivity.
    + right. eexists. split; [reflexivity|]. cbn [Type' Source Options].
      repeat split; try assumption.
      now destruct (Layered.DeviceMountOpts c =? "").
Qed.


Lemma run_HookMounts_cases (w : W) (mounts : list Mount) (configPath : string) :
  run h (Layered.HookMounts mounts configPath) w
  = match fst (h _ (ReadSpec configPath) w) with
    | inl err => (([], Some err), snd (h _ (ReadSpec configPath) w))
    | inr spec =>
        run h (Layered.HookMounts_cfg mounts
                 (Layered.config_of_env (Env (Process_ spec))))
          (snd (h _ (ReadSpec configPath) w))
    end.
Proof.
  unfold Layered.HookMounts, Layered.ReadExternalRootFSConfigFromENV, trigger.
  cbn [bind run].
  destruct (h _ (ReadSpec configPath) w) as [[e|spec] w']; reflexivity.
Qed.

Lemma calls_HookMounts_cases (w : W) (mounts : list Mount)
    (configPath : string) :
  calls h (Layered.HookMounts mounts configPath) w
  = CallReadSpec configPath
      :: match fst (h _ (ReadSpec configPath) w) with
         | inl _ => []
         | inr spec =>
             expected_calls mounts
               (Layered.config_of_env (Env (Process_ spec)))
         end.
Proof.
  unfold Layered.HookMounts, Layered.ReadExternalRootFSConfigFromENV, trigger.
  cbn [bind calls call_of].
  destruct (h _ (ReadSpec configPath) w) as [[e|spec] w']; cbn [fst bind];
    [reflexivity|].
  now rewrite calls_HookMounts_cfg.
Qed.

(** X4.  The overlay branch is idempotent: given back its own result
    under the same configuration, in a world where the upper directory can
    be made again, it returns that result. *)
Theorem overlay_override_idempotent (w w1 : W)
    (cfg : Layered.ExternalRootFSConfig) (m : Mount) (outs : list Mount) :
  Layered.Driver cfg = "overlay" ->
  Type' m = "overlay" ->
  run h (Layered.HookMounts_cfg [m] cfg) w = ((outs, None), w1) ->
  (Layered.OverlayUpper cfg <> "" ->
   fst (h _ (MkdirAll (Layered.OverlayUpper cfg) perm_0777) w1) = None) ->
  fst (run h (Layered.HookMounts_cfg outs cfg) w1) = (outs, None).
Proof.
  intros Hd Ht R Hmk.
  assert (E : forall ms : list Mount,
             single_overlay ms = true ->
             Layered.HookMounts_cfg ms cfg
             = overlayOverride (Layered.OverlayLower cfg)
                 (Layered.OverlayUpper cfg) (nth 0 ms zero_Mount)).
  { intros ms S. unfold Layered.HookMounts_cfg, ExternalRootFSDriverOverlay.
    now rewrite Hd, S. }
  rewrite E in R by (cbn; now rewrite Ht).
  rewrite run_overlayOverride in R. cbv zeta in R. cbn [nth] in R.
  destruct (String.eqb_spec (Layered.OverlayUpper cfg) "") as [Eu|Eu].
  - injection R as <- <-.
    rewrite E by reflexivity. rewrite run_overlayOverride. cbv zeta.
    cbn [nth]. rewrite Eu. cbn [String.eqb fst]. rewrite parse_built.
    unfold upper_of, lower_of, work_of; cbn [fst snd].
    now destruct (Layered.OverlayLower cfg =? "").
  - destruct (fst (h _ (MkdirAll (Layered.OverlayUpper cfg) perm_0777) w));
      [discriminate R|].
    injection R as <- <-.
    rewrite E by reflexivity. rewrite run_overlayOverride. cbv zeta.
    cbn [nth]. rewrite (Hmk Eu). apply String.eqb_neq in Eu. rewrite Eu.
    cbn [fst]. rewrite parse_built.
    unfold upper_of, lower_of, work_of; cbn [fst snd].
    now destruct (Layered.OverlayLower cfg =? "").
Qed.

(** X5.  When the specification cannot be read, both listings of
    [HookMounts] return its error and no mount, and make no other call. *)
Theorem HookMounts_spec_error (w : W) (mounts : list Mount)
    (configPath : string) (err : error) :
  fst (h _ (ReadSpec configPath) w) = inl err ->
  run h (Layered.HookMounts mounts configPath) w
  = (([], Some err), snd (h _ (ReadSpec configPath) w))
  /\ calls h (Layered.HookMounts mounts configPath) w
     = [CallReadSpec configPath]
  /\ run h (Simple.HookMounts mounts configPath) w
     = (([], Some err), snd (h _ (ReadSpec configPath) w))
  /\ calls h (Simple.HookMounts mounts configPath) w
     = [CallReadSpec configPath].
Proof.
  intros E. rewrite run_HookMounts_cases, calls_HookMounts_cases, E.
  repeat split;
    unfold Simple.HookMounts, Simple.ReadExternalRootFSConfigFromENV, trigger;
    cbn [bind run calls call_of];
    destruct (h _ (ReadSpec configPath) w) as [r w']; cbn [fst snd] in *;
    subst r; reflexivity.
Qed.

(** X6.  When the upper directory of the configuration cannot be made,
    the overlay branch returns the error of [os.MkdirAll] and no mount,
    also when the lower directory is given, and the one call it made is
    that [os.MkdirAll] with permission [0777]. *)
Theorem overlay_override_mkdir_fails (w : W)
    (cfg : Layered.ExternalRootFSConfig) (m : Mount) (err : error) :
  Layered.Driver cfg = "overlay" ->
  Type' m = "overlay" ->
  Layered.OverlayUpper cfg <> "" ->
  fst (h _ (MkdirAll (Layered.OverlayUpper cfg) perm_0777) w) = Some err ->
  run h (Layered.HookMounts_cfg [m] cfg) w
  = (([], Some err),
     snd (h _ (MkdirAll (Layered.OverlayUpper cfg) perm_0777) w))
  /\ calls h (Layered.HookMounts_cfg [m] cfg) w
     = [CallMkdirAll (Layered.OverlayUpper cfg) perm_0777]
  /\ perm_0777 = 511%N.
Proof.
  intros Hd Ht Eu Hmk.
  rewrite calls_HookMounts_cfg. unfold expected_calls, single_overlay.
  unfold Layered.HookMounts_cfg, single_overlay, ExternalRootFSDriverOverlay.
  cbn [List.length nth Nat.eqb]. rewrite Hd, Ht, !String.eqb_refl.
  cbn [andb]. rewrite run_overlayOverride. cbv zeta.
  apply String.eqb_neq in Eu. rewrite Eu, Hmk. repeat split.
Qed.


(** X8.  The calls of [HookMounts], in every world: reading the
    specification, and after it at most one more, [os.MkdirAll] of the
    upper directory in the overlay branch or [os.ReadFile] of the
    descriptor in the device branch.  It never writes a file. *)
Theorem HookMounts_calls (w : W) (mounts : list Mount) (configPath : string) :
  calls h (Layered.HookMounts mounts configPath) w
  = CallReadSpec configPath
      :: match fst (h _ (ReadSpec configPath) w) with
         | inl _ => []
         | inr spec =>
             expected_calls mounts
               (Layered.config_of_env (Env (Process_ spec)))
         end
  /\ (List.length (calls h (Layered.HookMounts mounts configPath) w) <= 2)%nat
  /\ Forall (fun c => match c with
                      | CallWriteFile _ _ _ => False
                      | _ => True
                      end)
       (calls h (Layered.HookMounts mounts configPath) w).
Proof.
  rewrite calls_HookMounts_cases. split; [reflexivity|].
  destruct (fst (h _ (ReadSpec configPath) w)) as [e|spec].
  - split; [cbn; lia | repeat constructor].
  - unfold expected_calls.
    destruct ((Layered.Driver _ =? "overlay") && single_overlay mounts).
    + destruct (Layered.OverlayUpper _ =? "");
        (split; [cbn; lia | repeat constructor]).
    + destruct (Layered.Driver _ =? "device").
      * destruct (Layered.DeviceConfig _ =? "");
          (split; [cbn; lia | repeat constructor]).
      * split; [cbn; lia | repeat constructor].
Qed.

End Effects.

(** ** Further properties of the string functions *)

Section SplitMore.

Variable sep : ascii.

Lemma length_cut (s a b : string) :
  cut sep s = Some (a, b) -> (String.length b < String.length s)%nat.
Proof.
  intros E. destruct (cut_Some sep _ _ _ E) as (-> & _ & _).
  rewrite length_append. cbn. lia.
Qed.

Lemma concat_cons (x : string) (l : list string) :
  l <> [] ->
  String.concat (String sep "") (x :: l)
  = x ++ String sep (String.concat (String sep "") l).
Proof. destruct l as [|y l]; [congruence | reflexivity]. Qed.

Lemma Split_facts_bounded (n : nat) (s : string) :
  (String.length s <= n)%nat ->
  String.concat (String sep "") (Split s sep) = s
  /\ List.length (Split s sep) = S (Count s sep)
  /\ Forall (fun piece => Count piece sep = 0%nat) (Split s sep).
Proof.
  revert s; induction n as [|n IH]; intros s Hn; rewrite Split_unfold;
    destruct (cut sep s) as [[a b]|] eqn:E.
  - apply length_cut in E. lia.
  - apply cut_None in E. rewrite E. repeat split. now constructor.
  - pose proof (length_cut _ _ _ E) as Hb.
    destruct (IH b ltac:(lia)) as (Hc & Hl & Hf).
    destruct (cut_Some sep _ _ _ E) as (Hs & Ha & Hcount).
    rewrite concat_cons by apply Split_nonempty.
    rewrite Hc, Hcount. cbn [List.length]. rewrite Hl.
    repeat split; [now rewrite Hs | now constructor].
  - apply cut_None in E. rewrite E. repeat split. now constructor.
Qed.

Lemma concat_Split (s : string) :
  String.concat (String sep "") (Split s sep) = s.
Proof. apply (Split_facts_bounded (String.length s)). lia. Qed.

Lemma splitLoop_facts (n : nat) (s : string) :
  String.concat (String sep "") (splitLoop sep n s) = s
  /\ (1 <= List.length (splitLoop sep n s) <= S n)%nat.
Proof.
  revert s; induction n as [|n IH]; intros s; cbn [splitLoop].
  - split; [reflexivity | cbn; lia].
  - destruct (cut sep s) as [[a b]|] eqn:E; [|split; [reflexivity | cbn; lia]].
    destruct (IH b) as (Hc & Hl).
    destruct (cut_Some sep _ _ _ E) as (Hs & _ & _).
    rewrite concat_cons
      by (destruct (splitLoop sep n b); [cbn in Hl; lia | discriminate]).
    rewrite Hc. cbn [List.length]. split; [now rewrite Hs | lia].
Qed.

End SplitMore.

(** X9.  [strings.Split] cuts at every separator: joining the pieces with
    the separator gives the string back, there is one piece more than
    there are separators, also for the empty string, and no piece holds
    the separator. *)
Theorem Split_pieces (s : string) (sep : ascii) :
  String.concat (String sep "") (Split s sep) = s
  /\ List.length (Split s sep) = S (Count s sep)
  /\ Forall (fun piece => Count piece sep = 0%nat) (Split s sep)
  /\ Split "" sep = [""].
Proof.
  destruct (Split_facts_bounded sep (String.length s) s (le_n _))
    as (Hc & Hl & Hf).
  repeat split; assumption.
Qed.

(** X10.  [strings.SplitN] with a count: nothing for the count zero; for
    a positive count at most that many pieces, which joined with the
    separator give the string back; and for a negative count the pieces of
    [strings.Split]. *)
Theorem SplitN_count (s : string) (sep : ascii) (n : Z) :
  SplitN s sep 0 = []
  /\ ((0 < n)%Z ->
      String.concat (String sep "") (SplitN s sep n) = s
      /\ (1 <= Z.of_nat (List.length (SplitN s sep n)) <= n)%Z)
  /\ ((n < 0)%Z -> SplitN s sep n = Split s sep).
Proof.
  split; [reflexivity|]. split.
  - intros Hn. unfold SplitN, genSplit.
    destruct (Z.eqb_spec n 0); [lia|].
    destruct (Z.ltb_spec n 0); [lia|].
    destruct (Z.gtb_spec n (Z.of_nat (String.length s) + 1)).
    + destruct (splitLoop_facts sep
                  (Z.to_nat (Z.of_nat (String.length s) + 1 - 1)) s) as (Hc & Hl).
      split; [exact Hc | lia].
    + destruct (splitLoop_facts sep (Z.to_nat (n - 1)) s) as (Hc & Hl).
      split; [exact Hc | lia].
  - intros Hn. unfold SplitN, Split, genSplit.
    destruct (Z.eqb_spec n 0); [lia|].
    destruct (Z.ltb_spec n 0); [reflexivity | lia].
Qed.

Lemma SplitN_count_witness :
  String.concat "=" (SplitN "KEY=a=b" "=" 2) = "KEY=a=b"
  /\ (1 <= Z.of_nat (List.length (SplitN "KEY=a=b" "=" 2)) <= 2)%Z.
Proof.
  apply (proj1 (proj2 (SplitN_count "KEY=a=b" "=" 2))). reflexivity.
Defined.

Lemma HasPrefix_split (s p : string) :
  HasPrefix s p = true -> exists t : string, s = p ++ t.
Proof.
  revert s; induction p as [|c p IH]; intros s E.
  - now exists s.
  - destruct s as [|d s]; [discriminate E|].
    rewrite HasPrefix_cons in E. apply andb_true_iff in E as [Ec E].
    apply Ascii.eqb_eq in Ec. subst d.
    destruct (IH s E) as [t ->]. now exists t.
Qed.

(** X11.  [strings.HasPrefix] holds exactly of the strings that start
    with the prefix, and [strings.TrimPrefix] takes the prefix off such a
    string and leaves every other string as it is. *)
Theorem HasPrefix_TrimPrefix (s p : string) :
  (HasPrefix s p = true <-> exists t : string, s = p ++ t)
  /\ (forall t : string, TrimPrefix (p ++ t) p = t)
  /\ (HasPrefix s p = true -> p ++ TrimPrefix s p = s)
  /\ (HasPrefix s p = false -> TrimPrefix s p = s).
Proof.
  repeat split.
  - apply HasPrefix_split.
  - intros [t ->]. apply HasPrefix_app.
  - intros t. apply TrimPrefix_app.
  - intros E. destruct (HasPrefix_split _ _ E) as [t ->].
    now rewrite TrimPrefix_app.
  - apply TrimPrefix_no.
Qed.

Lemma HasPrefix_TrimPrefix_witness :
  "upperdir=" ++ TrimPrefix "upperdir=/a" "upperdir=" = "upperdir=/a"
  /\ TrimPrefix "upperdir2=/x" "upperdir=" = "upperdir2=/x".
Proof.
  split.
  - apply (proj1 (proj2 (proj2 (HasPrefix_TrimPrefix "upperdir=/a"
                                  "upperdir=")))). reflexivity.
  - apply (proj2 (proj2 (proj2 (HasPrefix_TrimPrefix "upperdir2=/x"
                                  "upperdir=")))). reflexivity.
Defined.

(** ** Further properties of the device branch and of the snapshot *)

Section DeviceMore.

Context `{Externals} {W : Type} (h : handler W).

(** X12.  With a descriptor file in the configuration, the device branch
    fails when the file cannot be read or cannot be decoded, with the
    error of the library and no mount, also when the configuration gives
    the device inline. *)
Theorem externalDevice_descriptor_errors (w : W)
    (c : Layered.ExternalRootFSConfig) :
  Layered.DeviceConfig c <> "" ->
  (forall err : error,
      fst (h _ (ReadFile (Layered.DeviceConfig c)) w) = inl err ->
      fst (run h (Layered.externalDevice c) w) = ([], Some err))
  /\ (forall (b : bytes) (err : error),
         fst (h _ (ReadFile (Layered.DeviceConfig c)) w) = inr b ->
         json_Unmarshal_ExtDevice b = inl err ->
         fst (run h (Layered.externalDevice c) w) = ([], Some err)).
Proof.
  intros Ec. apply String.eqb_neq in Ec.
  unfold Layered.externalDevice. rewrite Ec. cbn [negb].
  unfold trigger; cbn [bind run].
  destruct (h _ (ReadFile (Layered.DeviceConfig c)) w) as [r w'].
  cbn [fst]. split.
  - intros err ->. reflexivity.
  - intros b err -> Hb. now rewrite Hb.
Qed.

(** X13.  When the device branch returns no error it returns exactly one
    mount, and neither its type, its source nor its option list is empty.
    The options are [rw] without [cfg.deviceMountOpts]; with it they are
    its pieces between commas, empty pieces too, so that joined with
    commas they give it back. *)
Theorem externalDevice_mount_invariant (w : W)
    (c : Layered.ExternalRootFSConfig) (ms : list Mount) :
  fst (run h (Layered.externalDevice c) w) = (ms, None) ->
  exists m : Mount,
    ms = [m]
    /\ Type' m <> "" /\ Source m <> "" /\ Options m <> []
    /\ (Layered.DeviceMountOpts c = "" -> Options m = ["rw"])
    /\ (Layered.DeviceMountOpts c <> "" ->
        String.concat "," (Options m) = Layered.DeviceMountOpts c
        /\ List.length (Options m)
           = S (Count (Layered.DeviceMountOpts c) ",")).
Proof.
  intros R.
  destruct (externalDevice_result h w c) as [[e E]|(m & E & Ht & Hs & Ho)];
    rewrite E in R; [discriminate R|].
  injection R as <-. exists m.
  split; [reflexivity|]. split; [exact Ht|]. split; [exact Hs|].
  rewrite Ho. unfold resolved_options. split; [|split].
  - destruct (Layered.DeviceMountOpts c =? ""); [discriminate|].
    apply Split_nonempty.
  - intros Eo. now rewrite Eo.
  - intros Eo. apply String.eqb_neq in Eo. rewrite Eo.
    split; [apply concat_Split | apply (Split_facts_bounded "," _ _ (le_n _))].
Qed.

(** X14.  [WriteMounts] returns the error of [json.Marshal] without a
    call; and in every world it makes no call, or the one [os.WriteFile]
    of the serialized list on the path joined with [mounts.json]. *)
Theorem WriteMounts_calls (w : W) (path : string) (mounts : list Mount) :
  (forall err : error,
      mounts <> [] -> json_Marshal_mounts mounts = inl err ->
      WriteMounts path mounts = Ret (Some err))
  /\ (calls h (WriteMounts path mounts) w = []
      \/ exists b : bytes,
          mounts <> []
          /\ json_Marshal_mounts mounts = inr b
          /\ calls h (WriteMounts path mounts) w
             = [CallWriteFile (filepath_Join path "mounts.json") b perm_0600]).
Proof.
  unfold WriteMounts. destruct mounts as [|m ms]; cbn [List.length Nat.eqb].
  - split; [intros err Hne; congruence | now left].
  - destruct (json_Marshal_mounts (m :: ms)) as [e|b].
    + split; [intros err _ [= ->]; reflexivity | now left].
    + split; [intros err _ E; discriminate E|].
      right. exists b. rewrite calls_trigger. repeat split. discriminate.
Qed.

End DeviceMore.

(** ** The map of the environment, by lookup *)

Section MapFacts.

Lemma stored_entry_spec (e : string) :
  stored_entry e
  = if HasPrefix e ExternalRootFSPrefix then
      match cut "=" e with
      | Some (k, rest) => Some (k, entry_key rest)
      | None => None
      end
    else None.
Proof.
  unfold stored_entry. destruct (HasPrefix e ExternalRootFSPrefix);
    [|reflexivity].
  rewrite SplitN_all, Split_unfold.
  destruct (cut "=" e) as [[k rest]|]; [|reflexivity].
  rewrite <- (Split_head rest).
  pose proof (Split_nonempty "=" rest) as Hne.
  destruct (Split rest "=") as [|x xs]; [contradiction | reflexivity].
Qed.

Lemma configMap_step_stored (m : json.gomap) (e : string) :
  configMap_step m e
  = match stored_entry e with
    | Some (k, v) => json.map_set k v m
    | None => m
    end.
Proof.
  rewrite configMap_step_spec, stored_entry_spec.
  destruct (HasPrefix e ExternalRootFSPrefix); cbn [negb]; [|reflexivity].
  now destruct (cut "=" e) as [[k rest]|].
Qed.

Lemma compare_Gt_neq (k k0 : string) :
  String.compare k k0 = Gt -> (k =? k0) = false.
Proof.
  intros E. apply String.eqb_neq. intros ->.
  rewrite string_compare_refl in E. discriminate E.
Qed.

Lemma compare_Lt_neq (k k0 : string) :
  String.compare k k0 = Lt -> (k =? k0) = false.
Proof.
  intros E. apply String.eqb_neq. intros ->.
  rewrite string_compare_refl in E. discriminate E.
Qed.

(** Lookup after an assignment. *)
Lemma map_get_set (k' k v : string) (m : json.gomap) :
  map_get k' (json.map_set k v m)
  = if k' =? k then Some v else map_get k' m.
Proof.
  induction m as [|[k0 v0] m IH]; cbn [json.map_set map_get].
  - reflexivity.
  - destruct (String.compare k k0) eqn:E; cbn [map_get].
    + apply String.compare_eq_iff in E. subst k0.
      now destruct (k' =? k).
    + reflexivity.
    + rewrite IH. destruct (String.eqb_spec k' k) as [->|]; [|reflexivity].
      now rewrite (compare_Gt_neq _ _ E).
Qed.

Lemma map_get_above (k v : string) (m : json.gomap) :
  Forall (key_lt (k, v)) m -> map_get k m = None.
Proof.
  induction 1 as [|[k0 v0] m Hx F IH]; cbn [map_get]; [reflexivity|].
  unfold key_lt in Hx; cbn [fst] in Hx.
  now rewrite (compare_Lt_neq _ _ Hx).
Qed.

Lemma map_get_In (k v : string) (m : json.gomap) :
  map_get k m = Some v -> In (k, v) m.
Proof.
  induction m as [|[k0 v0] m IH]; cbn [map_get]; [discriminate|].
  destruct (String.eqb_spec k k0) as [->|].
  - intros [= ->]. now left.
  - intros E. right. now apply IH.
Qed.

Lemma In_map_get (k v : string) (m : json.gomap) :
  sorted_keys m -> In (k, v) m -> map_get k m = Some v.
Proof.
  unfold sorted_keys.
  induction 1 as [|[k0 v0] m S IH F]; intros Hin; [destruct Hin|].
  cbn [map_get]. destruct Hin as [[= -> ->]|Hin].
  - now rewrite String.eqb_refl.
  - rewrite Forall_forall in F. pose proof (F _ Hin) as L.
    unfold key_lt in L; cbn [fst] in L.
    rewrite String.eqb_sym, (compare_Lt_neq _ _ L). now apply IH.
Qed.

(** Two maps with the same lookups are the same map. *)
Lemma map_ext (m1 m2 : json.gomap) :
  sorted_keys m1 -> sorted_keys m2 ->
  (forall k : string, map_get k m1 = map_get k m2) -> m1 = m2.
Proof.
  unfold sorted_keys. intros S1; revert m2.
  induction S1 as [|[k1 v1] m1 S1 IH F1]; intros m2 S2 E.
  - destruct m2 as [|[k2 v2] m2]; [reflexivity|].
    specialize (E k2). cbn in E. rewrite String.eqb_refl in E. discriminate E.
  - destruct S2 as [|[k2 v2] m2 S2 F2].
    + specialize (E k1). cbn in E. rewrite String.eqb_refl in E.
      discriminate E.
    + assert (Hk : k1 = k2).
      { destruct (String.compare k1 k2) eqn:C.
        - now apply String.compare_eq_iff.
        - specialize (E k1). cbn [map_get] in E.
          rewrite String.eqb_refl, (compare_Lt_neq _ _ C) in E.
          rewrite (map_get_above k1 v1 m2) in E; [discriminate E|].
          eapply Forall_impl; [|exact F2]. intros [k v] L.
          unfold key_lt in *; cbn [fst] in *.
          eapply string_compare_lt_trans; eauto.
        - assert (C' : String.compare k2 k1 = Lt)
            by (rewrite String.compare_antisym, C; reflexivity).
          specialize (E k2). cbn [map_get] in E.
          rewrite String.eqb_refl, (compare_Lt_neq _ _ C') in E.
          rewrite (map_get_above k2 v2 m1) in E; [discriminate E|].
          eapply Forall_impl; [|exact F1]. intros [k v] L.
          unfold key_lt in *; cbn [fst] in *.
          eapply string_compare_lt_trans; eauto. }
      subst k2.
      assert (Hv : v1 = v2).
      { specialize (E k1). cbn [map_get] in E.
        rewrite String.eqb_refl in E. congruence. }
      subst v2. f_equal. apply IH; [exact S2|].
      intros k. specialize (E k). cbn [map_get] in E.
      destruct (String.eqb_spec k k1) as [Ek|Ek]; [|exact E].
      rewrite Ek.
      now rewrite (map_get_above k1 v1 m1 F1), (map_get_above k1 v1 m2 F2).
Qed.

Lemma last_value_app (p : string -> bool) (l1 l2 : list (string * string)) :
  last_value p (l1 ++ l2)
  = match last_value p l2 with
    | Some v => Some v
    | None => last_value p l1
    end.
Proof.
  unfold last_value. rewrite rev_app_distr.
  induction (rev l2) as [|x l IH]; cbn [app find]; [reflexivity|].
  destruct (p (fst x)); [reflexivity | exact IH].
Qed.

Lemma last_value_one (p : string -> bool) (k v : string) :
  last_value p [(k, v)] = if p k then Some v else None.
Proof. unfold last_value; cbn. now destruct (p k). Qed.

Lemma stored_app (l1 l2 : list string) :
  stored (l1 ++ l2) = (stored l1 ++ stored l2)%list.
Proof. apply flat_map_app. Qed.

Lemma stored_cons (e : string) (l : list string) :
  stored (e :: l)
  = (match stored_entry e with Some kv => [kv] | None => [] end
       ++ stored l)%list.
Proof. reflexivity. Qed.

Lemma map_get_fold (k : string) (envs : list string) (m : json.gomap) :
  map_get k (fold_left configMap_step envs m)
  = match last_value (String.eqb k) (stored envs) with
    | Some v => Some v
    | None => map_get k m
    end.
Proof.
  revert m; induction envs as [|e envs IH]; intros m; cbn [fold_left].
  - reflexivity.
  - rewrite IH, stored_cons, last_value_app, configMap_step_stored.
    destruct (last_value (String.eqb k) (stored envs)); [reflexivity|].
    destruct (stored_entry e) as [[k0 v0]|]; [|reflexivity].
    rewrite map_get_set, last_value_one. now destruct (k =? k0).
Qed.

Lemma configMap_of_sorted (envs : list string) :
  sorted_keys (configMap_of envs).
Proof. apply configMap_fold_sorted. constructor. Qed.

(** The configuration depends on the environment through the last value
    stored under each key. *)
Lemma config_of_env_ext (env1 env2 : list string) :
  (forall k : string,
      last_value (String.eqb k) (stored env1)
      = last_value (String.eqb k) (stored env2)) ->
  configMap_of env1 = configMap_of env2.
Proof.
  intros E. apply map_ext; try apply configMap_of_sorted.
  intros k. unfold configMap_of. now rewrite !map_get_fold, E.
Qed.

End MapFacts.

(** X15.  The map the loop builds holds, under each key, the value of the
    last entry stored under that key, and nothing under a key no entry is
    stored under; in particular an entry without the prefix or without
    [=] leaves no key. *)
Theorem configMap_lookup (envs : list string) (k : string) :
  map_get k (configMap_of envs) = last_value (String.eqb k) (stored envs)
  /\ (forall e : string,
         HasPrefix e ExternalRootFSPrefix = false \/ Count e "=" = 0%nat ->
         stored_entry e = None).
Proof.
  split.
  - unfold configMap_of. rewrite map_get_fold.
    now destruct (last_value (String.eqb k) (stored envs)).
  - intros e [E|E]; rewrite stored_entry_spec.
    + now rewrite E.
    + apply cut_None in E. rewrite E. now destruct (HasPrefix _ _).
Qed.

(** X16.  Of two entries stored under one key the later one decides: the
    earlier one can be taken out of the environment, wherever it stands,
    without a change of the configuration. *)
Theorem repeated_key_last_wins (env1 env2 env3 : list string)
    (e1 e2 : string) (k v1 v2 : string) :
  stored_entry e1 = Some (k, v1) ->
  stored_entry e2 = Some (k, v2) ->
  Layered.config_of_env (env1 ++ e1 :: env2 ++ e2 :: env3)%list
  = Layered.config_of_env (env1 ++ env2 ++ e2 :: env3)%list.
Proof.
  intros S1 S2. unfold Layered.config_of_env. f_equal.
  apply config_of_env_ext. intros k'.
  rewrite !stored_app, !stored_cons, !stored_app, !stored_cons, S1, S2.
  rewrite !last_value_app, !last_value_one.
  destruct (last_value (String.eqb k') (stored env3)),
    (last_value (String.eqb k') (stored env2)),
    (last_value (String.eqb k') (stored env1)), (k' =? k); reflexivity.
Qed.

(** X17.  Two neighbouring entries with different keys can change places
    without a change of the configuration: the order of the environment
    matters among the entries of one key only. *)
Theorem entries_of_different_keys_commute (env1 env2 : list string)
    (e1 e2 : string) :
  entry_key e1 <> entry_key e2 ->
  Layered.config_of_env (env1 ++ e1 :: e2 :: env2)%list
  = Layered.config_of_env (env1 ++ e2 :: e1 :: env2)%list.
Proof.
  intros Hk. unfold Layered.config_of_env. f_equal.
  apply config_of_env_ext. intros k.
  rewrite !stored_app, !stored_cons, !last_value_app.
  destruct (last_value (String.eqb k) (stored env2)); [reflexivity|].
  assert (K : forall e kv, stored_entry e = Some kv -> fst kv = entry_key e).
  { intros e kv. rewrite stored_entry_spec. unfold entry_key.
    destruct (HasPrefix _ _); [|discriminate].
    destruct (cut "=" e) as [[a b]|]; [|discriminate]. now intros [= <-]. }
  destruct (stored_entry e1) as [[k1 v1]|] eqn:S1,
           (stored_entry e2) as [[k2 v2]|] eqn:S2;
    rewrite ?last_value_one; try reflexivity.
  - apply K in S1, S2. cbn [fst] in *. subst k1 k2.
    destruct (String.eqb_spec k (entry_key e1)),
             (String.eqb_spec k (entry_key e2)); try reflexivity.
    congruence.
  - cbn. now destruct (k =? k1).
  - cbn. now destruct (k =? k2).
Qed.

(** ** The decoder, field by field *)

Section DecodeFacts.

Ltac by_exact_key k :=
  repeat (match goal with
          | |- context [String.eqb ?a k] =>
              destruct (String.eqb_spec a k);
              [subst k; vm_compute; reflexivity|]; cbv beta iota
          end).

(** A member assigns the field of the tag its key folds to, and leaves
    every other field alone. *)
Lemma decode_member (tag : string)
    (get : Layered.ExternalRootFSConfig -> string) :
  In (tag, get) field_table ->
  forall (k v : string) (acc : Layered.ExternalRootFSConfig),
    get (json.Unmarshal_struct _ Layered.fields [(k, v)] acc)
    = if tag =? json.foldName k then v else get acc.
Proof.
  intros Hin k v acc.
  unfold json.Unmarshal_struct; cbn [fold_left fst snd].
  unfold json.fieldOf, json.byExactName, json.byFoldedName, Layered.fields.
  cbn [find fst snd].
  cbn [field_table In] in Hin.
  repeat (destruct Hin as [Hin|Hin];
          [injection Hin as <- <-; by_exact_key k;
           change (json.foldName "EXTERNAL_ROOTFS_DRIVER")
             with "EXTERNAL_ROOTFS_DRIVER";
           change (json.foldName "EXTERNAL_ROOTFS_OVERLAY_LOWER_PATH")
             with "EXTERNAL_ROOTFS_OVERLAY_LOWER_PATH";
           change (json.foldName "EXTERNAL_ROOTFS_OVERLAY_UPPER_PATH")
             with "EXTERNAL_ROOTFS_OVERLAY_UPPER_PATH";
           change (json.foldName "EXTERNAL_ROOTFS_DEVICE_NAME")
             with "EXTERNAL_ROOTFS_DEVICE_NAME";
           change (json.foldName "EXTERNAL_ROOTFS_DEVICE_FSTYPE")
             with "EXTERNAL_ROOTFS_DEVICE_FSTYPE";
           change (json.foldName "EXTERNAL_ROOTFS_DEVICE_CONFIG")
             with "EXTERNAL_ROOTFS_DEVICE_CONFIG";
           change (json.foldName "EXTERNAL_ROOTFS_DEVICE_MOUNT_OPTS")
             with "EXTERNAL_ROOTFS_DEVICE_MOUNT_OPTS";
           generalize (json.foldName k); intros fk; by_exact_key fk;
           reflexivity|]).
  destruct Hin.
Qed.

Lemma Unmarshal_cons (kv : string * string) (o : json.object)
    (acc : Layered.ExternalRootFSConfig) :
  json.Unmarshal_struct _ Layered.fields (kv :: o) acc
  = json.Unmarshal_struct _ Layered.fields o
      (json.Unmarshal_struct _ Layered.fields [kv] acc).
Proof. reflexivity. Qed.

Lemma decode_object (tag : string)
    (get : Layered.ExternalRootFSConfig -> string) :
  In (tag, get) field_table ->
  forall (o : json.object) (acc : Layered.ExternalRootFSConfig),
    get (json.Unmarshal_struct _ Layered.fields o acc)
    = match last_value (fun key => tag =? json.foldName key) o with
      | Some v => v
      | None => get acc
      end.
Proof.
  intros Hin o; induction o as [|[k v] o IH]; intros acc.
  - reflexivity.
  - rewrite Unmarshal_cons, IH.
    change ((k, v) :: o) with ([(k, v)] ++ o)%list.
    rewrite last_value_app, last_value_one.
    destruct (last_value _ o); [reflexivity|].
    rewrite (decode_member tag get Hin).
    now destruct (tag =? json.foldName k).
Qed.

Lemma last_value_Marshal (p : string -> bool) (m : json.gomap) :
  last_value p (json.Marshal_map m)
  = option_map json.transported
      (last_value (fun key => p (json.transported key)) m).
Proof.
  unfold last_value, json.Marshal_map. rewrite <- map_rev.
  induction (rev m) as [|[k v] l IH]; cbn [map find fst snd option_map].
  - reflexivity.
  - destruct (p (json.transported k)); [reflexivity | exact IH].
Qed.

Lemma zero_fields (tag : string)
    (get : Layered.ExternalRootFSConfig -> string) :
  In (tag, get) field_table -> get Layered.zero = "".
Proof.
  cbn [field_table In].
  intros Hin.
  repeat (destruct Hin as [Hin|Hin]; [injection Hin as <- <-; reflexivity|]).
  destruct Hin.
Qed.

Lemma decode_field (tag : string)
    (get : Layered.ExternalRootFSConfig -> string) (m : json.gomap) :
  In (tag, get) field_table ->
  get (Layered.decodeConfig m) = decoded_value tag m.
Proof.
  intros Hin. unfold Layered.decodeConfig, decoded_value, folds_to.
  rewrite (decode_object tag get Hin), last_value_Marshal.
  rewrite (zero_fields tag get Hin).
  now destruct (last_value _ m).
Qed.

(** A tag is a key the decoder takes for the tag itself. *)
Lemma tag_folds_to_itself (tag : string)
    (get : Layered.ExternalRootFSConfig -> string) :
  In (tag, get) field_table -> folds_to tag tag = true.
Proof.
  cbn [field_table In].
  intros Hin.
  repeat (destruct Hin as [Hin|Hin]; [injection Hin as <- <-; reflexivity|]).
  destruct Hin.
Qed.

(** The members of the map are entries the loop stored. *)
Lemma configMap_members (envs : list string) (k v : string) :
  In (k, v) (configMap_of envs) -> In (k, v) (stored envs).
Proof.
  intros Hin. apply (In_map_get _ _ _ (configMap_of_sorted envs)) in Hin.
  unfold configMap_of in Hin. rewrite map_get_fold in Hin. cbn [map_get] in Hin.
  unfold last_value in Hin.
  destruct (find _ (rev (stored envs))) as [[k0 v0]|] eqn:F;
    [|discriminate Hin].
  cbn in Hin. injection Hin as ->.
  apply find_some in F as [Hr Hk]. cbn [fst] in Hk.
  apply String.eqb_eq in Hk. subst k0. now apply in_rev.
Qed.

Lemma transported_ascii (s : string) :
  ascii_only s = true -> json.transported s = s.
Proof.
  unfold json.transported. induction s as [|c r IH]; [reflexivity|].
  cbn [ascii_only]. intros E. apply andb_true_iff in E as [Ec Er].
  cbn [json.coerce]. unfold utf8.validSize, utf8.first.
  replace (N_of_ascii c <? 0x80)%N with true by (symmetry; exact Ec).
  now rewrite (IH Er).
Qed.

Lemma transported_empty (s : string) :
  json.transported s = "" -> s = "".
Proof.
  unfold json.transported. destruct s as [|c r]; [reflexivity|].
  cbn [json.coerce]. destruct (utf8.validSize (String c r)); discriminate.
Qed.

End DecodeFacts.

(** X18.  Every field of the decoded configuration holds the value of the
    last member of the map, in the order of the keys, whose key folds to
    the tag of the field, and is empty when no key does. *)
Theorem decodeConfig_fields (m : json.gomap) :
  Forall (fun field : string * (Layered.ExternalRootFSConfig -> string) =>
            snd field (Layered.decodeConfig m) = decoded_value (fst field) m)
    field_table
  /\ Layered.decodeConfig [] = Layered.zero.
Proof.
  split; [|reflexivity].
  apply Forall_forall. intros [tag get] Hin. cbn [fst snd].
  unfold Layered.decodeConfig, decoded_value, folds_to.
  rewrite (decode_object tag get Hin), last_value_Marshal.
  rewrite (zero_fields tag get Hin).
  now destruct (last_value _ m).
Qed.

(** X19.  A field stays empty when the environment stores no entry whose
    key folds to the tag of the field. *)
Theorem field_without_key_is_empty (envs : list string) (tag : string)
    (get : Layered.ExternalRootFSConfig -> string) :
  In (tag, get) field_table ->
  (forall kv : string * string,
      In kv (stored envs) -> folds_to tag (fst kv) = false) ->
  get (Layered.config_of_env envs) = "".
Proof.
  intros Hin Hno. unfold Layered.config_of_env.
  rewrite (decode_field tag get _ Hin). unfold decoded_value, last_value.
  destruct (find _ (rev (configMap_of envs))) as [[k v]|] eqn:F;
    [|reflexivity].
  apply find_some in F as [Hr Hk]. cbn [fst] in Hk.
  apply in_rev, configMap_members, Hno in Hr. cbn [fst] in Hr. congruence.
Qed.

(** X20.  A field holds the value of the last entry stored under its tag,
    as the value goes through the text, and the value itself when it is
    ASCII, provided no entry is stored under another key that folds to
    the tag. *)
Theorem field_of_exact_key (envs : list string) (tag v : string)
    (get : Layered.ExternalRootFSConfig -> string) :
  In (tag, get) field_table ->
  last_value (String.eqb tag) (stored envs) = Some v ->
  (forall kv : string * string,
      In kv (stored envs) -> folds_to tag (fst kv) = true -> fst kv = tag) ->
  get (Layered.config_of_env envs) = json.transported v
  /\ (ascii_only v = true -> get (Layered.config_of_env envs) = v).
Proof.
  intros Hin Hlast Honly.
  assert (G : get (Layered.config_of_env envs) = json.transported v).
  { unfold Layered.config_of_env.
    rewrite (decode_field tag get _ Hin). unfold decoded_value, last_value.
    assert (Hget : map_get tag (configMap_of envs) = Some v).
    { unfold configMap_of. now rewrite map_get_fold, Hlast. }
    destruct (find _ (rev (configMap_of envs))) as [[k0 v0]|] eqn:F.
    - apply find_some in F as [Hr Hk]. cbn [fst] in Hk.
      apply in_rev in Hr.
      pose proof (Honly _ (configMap_members _ _ _ Hr) Hk) as Ek.
      cbn [fst] in Ek. subst k0.
      apply (In_map_get _ _ _ (configMap_of_sorted envs)) in Hr.
      cbn [option_map snd]. congruence.
    - apply map_get_In in Hget. apply in_rev in Hget.
      pose proof (find_none _ _ F _ Hget) as N. cbn [fst] in N.
      rewrite (tag_folds_to_itself tag get Hin) in N. discriminate N. }
  split; [exact G|]. intros A. now rewrite G, transported_ascii.
Qed.

(** ** From the environment to the mounts *)

Section EndToEnd.

Context `{Externals} {W : Type} (h : handler W).




(** X22.  The driver [device] and a device name as the only entries under
    the prefix: [HookMounts] drops the mounts of the caller and returns
    the one mount of the device, of type [xfs] with the options [rw],
    reading nothing but the specification.  The source is the name as it
    goes through the text, which for an ASCII name is the name. *)
Theorem HookMounts_device_by_name (w : W) (mounts : list Mount)
    (configPath : string) (spec : Spec) (d : string) :
  fst (h _ (ReadSpec configPath) w) = inr spec ->
  filter (fun e => HasPrefix e ExternalRootFSPrefix) (Env (Process_ spec))
  = ["EXTERNAL_ROOTFS_DRIVER=device"; "EXTERNAL_ROOTFS_DEVICE_NAME=" ++ d] ->
  d <> "" ->
  Count d "=" = 0%nat ->
  run h (Layered.HookMounts mounts configPath) w
  = (([ {| Type' := "xfs"; Source := json.transported d;
           Options := ["rw"] |} ], None),
     snd (h _ (ReadSpec configPath) w))
  /\ calls h (Layered.HookMounts mounts configPath) w
     = [CallReadSpec configPath]
  /\ (ascii_only d = true -> json.transported d = d).
Proof.
  intros E F Hd Hc.
  assert (C : Layered.config_of_env (Env (Process_ spec))
              = {| Layered.Driver := "device"; Layered.OverlayLower := "";
                   Layered.OverlayUpper := "";
                   Layered.Device := json.transported d;
                   Layered.DeviceFSType := ""; Layered.DeviceConfig := "";
                   Layered.DeviceMountOpts := "" |}).
  { unfold Layered.config_of_env, configMap_of.
    rewrite configMap_fold_filter, F. cbn [fold_left].
    rewrite !configMap_step_stored.
    change (stored_entry "EXTERNAL_ROOTFS_DRIVER=device")
      with (Some ("EXTERNAL_ROOTFS_DRIVER", "device")).
    assert (S : stored_entry ("EXTERNAL_ROOTFS_DEVICE_NAME=" ++ d)
                = Some ("EXTERNAL_ROOTFS_DEVICE_NAME", d)).
    { rewrite stored_entry_spec.
      change ("EXTERNAL_ROOTFS_DEVICE_NAME=" ++ d)
        with ("EXTERNAL_ROOTFS_DEVICE_NAME" ++ String "=" d).
      rewrite (HasPrefix_app_l "EXTERNAL_ROOTFS_DEVICE_NAME"
                 ExternalRootFSPrefix (String "=" d) eq_refl).
      rewrite (cut_app "=" "EXTERNAL_ROOTFS_DEVICE_NAME" d eq_refl).
      unfold entry_key. apply cut_None in Hc. now rewrite Hc. }
    rewrite S. reflexivity. }
  rewrite run_HookMounts_cases, calls_HookMounts_cases, E, C.
  assert (T : (json.transported d =? "") = false).
  { apply String.eqb_neq. intros T. now apply transported_empty in T. }
  unfold expected_calls, Layered.HookMounts_cfg, Layered.externalDevice.
  cbn [Layered.Driver Layered.DeviceConfig Layered.Device
       Layered.DeviceFSType Layered.DeviceMountOpts].
  cbn [String.eqb Ascii.eqb Bool.eqb andb negb bind run].
  rewrite T. cbn [negb]. rewrite T.
  repeat split. apply transported_ascii.
Qed.

(** X23.  On one environment the second listing reads the five fields of
    its struct as the first listing reads them, and fails to read the
    configuration exactly when the first does. *)
Theorem Simple_reads_the_same_fields (envs : list string) :
  Simple.config_of_env envs = simple_of (Layered.config_of_env envs)
  /\ (forall (w : W) (configFile : string),
         fst (run h (Simple.ReadExternalRootFSConfigFromENV configFile) w)
         = match fst (run h (Layered.ReadExternalRootFSConfigFromENV
                               configFile) w) with
           | inl err => inl err
           | inr c => inr (simple_of c)
           end).
Proof.
  split.
  - apply (simple_Unmarshal _ Layered.zero).
  - intros w configFile.
    unfold Simple.ReadExternalRootFSConfigFromENV,
      Layered.ReadExternalRootFSConfigFromENV, trigger. cbn [bind run].
    destruct (h _ (ReadSpec configFile) w) as [[e|spec] w']; cbn [run fst];
      [reflexivity|].
    f_equal. apply (simple_Unmarshal _ Layered.zero).
Qed.

(** X24.  The second listing of [HookMounts] can fail, once the
    configuration is read, in no other way than by [os.MkdirAll] of the
    overlay branch.  With the driver [device] it makes no call and returns
    no error: the one mount of the device with the type of the
    configuration, empty or not, or the mounts of the caller when the
    device is empty. *)
Theorem Simple_HookMounts_failures (w : W) (mounts : list Mount)
    (cfg : Simple.ExternalRootFSConfig) :
  ((exists ms : list Mount,
       fst (run h (Simple.HookMounts_cfg mounts cfg) w) = (ms, None))
   \/ (exists e : error,
          fst (run h (Simple.HookMounts_cfg mounts cfg) w) = ([], Some e)
          /\ Simple.Driver cfg = "overlay"
          /\ fst (h _ (MkdirAll (Simple.OverlayUpper cfg) perm_0777) w)
             = Some e))
  /\ (Simple.Driver cfg = "device" ->
      Simple.HookMounts_cfg mounts cfg
      = Ret (if Simple.Device cfg =? "" then mounts
             else [ {| Type' := Simple.DeviceFSType cfg;
                       Source := Simple.Device cfg;
                       Options := ["rw"] |} ],
             None)).
Proof.
  unfold Simple.HookMounts_cfg, ExternalRootFSDriverOverlay,
    ExternalRootFSDriverDevice.
  split.
  - destruct (String.eqb_spec (Simple.Driver cfg) "overlay") as [Eo|Eo];
      cbn [andb].
    + destruct (single_overlay mounts).
      * rewrite run_overlayOverride. cbv zeta.
        destruct (Simple.OverlayUpper cfg =? "");
          [left; eexists; reflexivity|].
        destruct (fst (h _ (MkdirAll (Simple.OverlayUpper cfg) perm_0777) w))
          as [e|] eqn:M; [right | left]; eexists; [|reflexivity].
        repeat split. exact Eo.
      * destruct ((Simple.Driver cfg =? "device")
                  && negb (Simple.Device cfg =? ""));
          left; eexists; reflexivity.
    + destruct ((Simple.Driver cfg =? "device")
                && negb (Simple.Device cfg =? ""));
        left; eexists; reflexivity.
  - intros Ed. rewrite Ed. cbn [String.eqb Ascii.eqb Bool.eqb andb].
    now destruct (Simple.Device cfg =? "").
Qed.

End EndToEnd.

(** ** The further statements at concrete inputs *)

(** The result of the scenario of the upper directory [/x], given back. *)
Lemma overlay_override_idempotent_witness :
  fst (run MemFS.handle
         (Layered.HookMounts_cfg (H := Demo.externals)
            [built_overlay "/x" "/b" "/c"] (Demo.overlay_cfg "" "/x"))
         (snd (run MemFS.handle
                 (Layered.HookMounts_cfg (H := Demo.externals)
                    [Demo.overlay_mount] (Demo.overlay_cfg "" "/x"))
                 (Demo.world_of []))))
  = ([built_overlay "/x" "/b" "/c"], None).
Proof.
  apply (overlay_override_idempotent (H := Demo.externals) MemFS.handle
           (Demo.world_of []) _ (Demo.overlay_cfg "" "/x")
           Demo.overlay_mount [built_overlay "/x" "/b" "/c"]
           eq_refl eq_refl eq_refl).
  intros _. reflexivity.
Defined.

(** No specification at the path. *)
Lemma HookMounts_spec_error_witness :
  run MemFS.handle
    (Layered.HookMounts (H := Demo.externals) [Demo.bind_mount] "/nowhere")
    MemFS.empty
  = (([], Some MemFS.no_such_file), MemFS.empty).
Proof.
  apply (proj1 (HookMounts_spec_error (H := Demo.externals) MemFS.handle
                  MemFS.empty [Demo.bind_mount] "/nowhere"
                  MemFS.no_such_file eq_refl)).
Defined.

(** The upper directory on a file system mounted read-only. *)
Lemma overlay_override_mkdir_fails_witness :
  run handle_readonly
    (Layered.HookMounts_cfg (H := Demo.externals) [Demo.overlay_mount]
       (Demo.overlay_cfg "/lower" "/x"))
    (Demo.world_of [])
  = (([], Some read_only_file_system), Demo.world_of []).
Proof.
  apply (proj1 (overlay_override_mkdir_fails (H := Demo.externals)
                  handle_readonly (Demo.world_of [])
                  (Demo.overlay_cfg "/lower" "/x") Demo.overlay_mount
                  read_only_file_system eq_refl eq_refl
                  ltac:(discriminate) eq_refl)).
Defined.

(** A descriptor file that is missing, and one that does not decode, both
    under a configuration with the device inline. *)
Lemma externalDevice_descriptor_errors_witness :
  fst (run MemFS.handle
         (Layered.externalDevice (H := Demo.externals)
            (Demo.device_cfg "/dev/sdb" "ext4" "/missing.json" ""))
         (Demo.world_of []))
  = ([], Some MemFS.no_such_file)
  /\ fst (run MemFS.handle
            (Layered.externalDevice (H := Demo.externals)
               (Demo.device_cfg "/dev/sdb" "ext4" "/run/c1/mounts.json" ""))
            (Demo.world_of []))
     = ([], Some (LibError "unexpected end of input")).
Proof.
  split.
  - apply (proj1 (externalDevice_descriptor_errors (H := Demo.externals)
                    MemFS.handle (Demo.world_of [])
                    (Demo.device_cfg "/dev/sdb" "ext4" "/missing.json" "")
                    ltac:(discriminate))).
    reflexivity.
  - apply (proj2 (externalDevice_descriptor_errors (H := Demo.externals)
                    MemFS.handle (Demo.world_of [])
                    (Demo.device_cfg "/dev/sdb" "ext4" "/run/c1/mounts.json"
                       "")
                    ltac:(discriminate)) "stale");
      reflexivity.
Defined.

(** Mount options with an empty piece. *)
Lemma externalDevice_mount_invariant_witness :
  exists m : Mount,
    [ {| Type' := "xfs"; Source := "/dev/sdb";
         Options := ["rw"; ""; "noatime"] |} ] = [m]
    /\ Type' m <> "" /\ Source m <> "" /\ Options m <> []
    /\ (Layered.DeviceMountOpts (Demo.device_cfg "/dev/sdb" "" "" "rw,,noatime")
        = "" -> Options m = ["rw"])
    /\ (Layered.DeviceMountOpts (Demo.device_cfg "/dev/sdb" "" "" "rw,,noatime")
        <> "" ->
        String.concat "," (Options m)
        = Layered.DeviceMountOpts
            (Demo.device_cfg "/dev/sdb" "" "" "rw,,noatime")
        /\ List.length (Options m)
           = S (Count (Layered.DeviceMountOpts
                         (Demo.device_cfg "/dev/sdb" "" "" "rw,,noatime"))
                  ",")).
Proof.
  exact (externalDevice_mount_invariant (H := Demo.externals) MemFS.handle
           (Demo.world_of [])
           (Demo.device_cfg "/dev/sdb" "" "" "rw,,noatime") _ eq_refl).
Defined.

(** The driver given twice. *)
Lemma repeated_key_last_wins_witness :
  Layered.config_of_env
    ["EXTERNAL_ROOTFS_DRIVER=overlay"; "PATH=/bin";
     "EXTERNAL_ROOTFS_DRIVER=device"]
  = Layered.config_of_env ["PATH=/bin"; "EXTERNAL_ROOTFS_DRIVER=device"].
Proof.
  exact (repeated_key_last_wins [] ["PATH=/bin"] []
           "EXTERNAL_ROOTFS_DRIVER=overlay" "EXTERNAL_ROOTFS_DRIVER=device"
           "EXTERNAL_ROOTFS_DRIVER" "overlay" "device" eq_refl eq_refl).
Defined.

Lemma entries_of_different_keys_commute_witness :
  Layered.config_of_env
    ["EXTERNAL_ROOTFS_DRIVER=device"; "EXTERNAL_ROOTFS_DEVICE_NAME=/dev/sdb"]
  = Layered.config_of_env
      ["EXTERNAL_ROOTFS_DEVICE_NAME=/dev/sdb"; "EXTERNAL_ROOTFS_DRIVER=device"].
Proof.
  apply (entries_of_different_keys_commute [] []
           "EXTERNAL_ROOTFS_DRIVER=device"
           "EXTERNAL_ROOTFS_DEVICE_NAME=/dev/sdb").
  discriminate.
Defined.

(** No device name in the environment. *)
Lemma field_without_key_is_empty_witness :
  Layered.Device
    (Layered.config_of_env ["PATH=/bin"; "EXTERNAL_ROOTFS_DRIVER=device"])
  = "".
Proof.
  apply (field_without_key_is_empty
           ["PATH=/bin"; "EXTERNAL_ROOTFS_DRIVER=device"]
           "EXTERNAL_ROOTFS_DEVICE_NAME" Layered.Device).
  - cbn. tauto.
  - intros kv [<-|[]]. reflexivity.
Defined.

(** The device name given twice, and the driver beside it. *)
Lemma field_of_exact_key_witness :
  Layered.Device
    (Layered.config_of_env
       ["EXTERNAL_ROOTFS_DEVICE_NAME=/dev/sda";
        "EXTERNAL_ROOTFS_DRIVER=device";
        "EXTERNAL_ROOTFS_DEVICE_NAME=/dev/sdb"])
  = "/dev/sdb".
Proof.
  apply (proj2 (field_of_exact_key
                  ["EXTERNAL_ROOTFS_DEVICE_NAME=/dev/sda";
                   "EXTERNAL_ROOTFS_DRIVER=device";
                   "EXTERNAL_ROOTFS_DEVICE_NAME=/dev/sdb"]
                  "EXTERNAL_ROOTFS_DEVICE_NAME" "/dev/sdb" Layered.Device
                  ltac:(cbn; tauto) eq_refl
                  ltac:(intros kv [<-|[<-|[<-|[]]]]; intros E;
                        first [reflexivity | discriminate E]))).
  reflexivity.
Defined.


Lemma HookMounts_device_by_name_witness :
  run MemFS.handle
    (Layered.HookMounts (H := Demo.externals) [Demo.overlay_mount]
       "/run/c1/config.json")
    (Demo.world_of ["PATH=/bin"; "EXTERNAL_ROOTFS_DRIVER=device";
                    "EXTERNAL_ROOTFS_DEVICE_NAME=/dev/sdb"])
  = (([ {| Type' := "xfs"; Source := "/dev/sdb"; Options := ["rw"] |} ],
      None),
     Demo.world_of ["PATH=/bin"; "EXTERNAL_ROOTFS_DRIVER=device";
                    "EXTERNAL_ROOTFS_DEVICE_NAME=/dev/sdb"]).
Proof.
  apply (proj1 (HookMounts_device_by_name (H := Demo.externals)
                  MemFS.handle
                  (Demo.world_of ["PATH=/bin"; "EXTERNAL_ROOTFS_DRIVER=device";
                                  "EXTERNAL_ROOTFS_DEVICE_NAME=/dev/sdb"])
                  [Demo.overlay_mount] "/run/c1/config.json"
                  (Demo.spec_of ["PATH=/bin"; "EXTERNAL_ROOTFS_DRIVER=device";
                                 "EXTERNAL_ROOTFS_DEVICE_NAME=/dev/sdb"])
                  "/dev/sdb" eq_refl eq_refl ltac:(discriminate) eq_refl)).
Defined.
